(** * sisparse: the course-schedule scraper of samorozvrh

    A shallow embedding of [sisparse/sisparse.go] and the properties its
    specification states about it.

    Go strings are byte sequences, so they are modelled by [string] (a list of
    8-bit [ascii] characters); a literal holding non-ASCII text is the list of
    its UTF-8 bytes, as in Go.  A function that can panic returns a [result];
    the retrieval, which talks to the network, also threads a [World]. *)

From Stdlib Require Import ZArith List String Ascii Bool Lia.
Import ListNotations.

Local Open Scope string_scope.
Local Open Scope list_scope.
Local Open Scope Z_scope.

(** ** Panics and results *)

(** What [strconv.Atoi] reports: [strconv.ErrSyntax] or [strconv.ErrRange]. *)
Inductive NumError : Type :=
| ErrSyntax
| ErrRange.

(** The values the package panics with.  The two run-time errors are Go's own;
    the other four are the arguments of the [panic] calls of the source. *)
Inductive panic : Type :=
| IndexOutOfRange (index len : Z)
    (* runtime error: index out of range [index] with length len *)
| SliceBoundsOutOfRange (low high : Z)
    (* runtime error: slice bounds out of range *)
| UnknownDay (day : string)
    (* panic(fmt.Sprintf("Unknown day \"%s\"", day)) *)
| UnableToParseTime (text : string)
    (* panic(fmt.Sprintf("Unable to parse time: %s", ...)) *)
| UnableToParseDuration (err : NumError)
    (* panic(fmt.Sprintf("Unable to parse duration: %s", err)) *)
| ErrorValue (err : string).
    (* panic(err), err an error of html.Parse or url.Parse *)

Inductive result (A : Type) : Type :=
| Ok (a : A)
| Panic (p : panic).

Arguments Ok {A} a.
Arguments Panic {A} p.

Definition bind {A B : Type} (r : result A) (k : A -> result B) : result B :=
  match r with
  | Ok a => k a
  | Panic p => Panic p
  end.

Notation "x <- r ;; k" := (bind r (fun x => k))
  (at level 61, r at next level, right associativity).

(** [s[i]] on a slice of strings or events. *)
Definition index {A : Type} (s : list A) (i : nat) : result A :=
  match nth_error s i with
  | Some a => Ok a
  | None => Panic (IndexOutOfRange (Z.of_nat i) (Z.of_nat (List.length s)))
  end.

(** ** Runes: package unicode/utf8 and unicode.IsSpace *)

Definition rune := Z.

Definition RuneError : rune := 0xFFFD.

Definition byte_of (c : ascii) : Z := Z.of_N (N_of_ascii c).
Definition char_of (b : Z) : ascii := ascii_of_N (Z.to_N (b mod 256)).

Definition between (lo x hi : Z) : bool := (lo <=? x) && (x <=? hi).

(** A continuation byte, [10xxxxxx]. *)
Definition isCont (b : Z) : bool := between 0x80 b 0xBF.

(** The range the second byte of a sequence must lie in, by first byte
    (the [acceptRanges] table of unicode/utf8). *)
Definition acceptRange (b0 : Z) : Z * Z :=
  if b0 =? 0xE0 then (0xA0, 0xBF)
  else if b0 =? 0xED then (0x80, 0x9F)
  else if b0 =? 0xF0 then (0x90, 0xBF)
  else if b0 =? 0xF4 then (0x80, 0x8F)
  else (0x80, 0xBF).

Definition accepts (b0 b1 : Z) : bool :=
  let '(lo, hi) := acceptRange b0 in between lo b1 hi.

(** [runesOf s] decodes [s] as [for _, r := range s] does: the runes of [s] in
    order, each with the bytes it was read from.  A byte that starts no valid
    encoding is one [RuneError] of width 1. *)
Fixpoint runesOf (s : string) : list (rune * string) :=
  match s with
  | EmptyString => []
  | String c0 s1 =>
    let b0 := byte_of c0 in
    let bad (_ : unit) := (RuneError, String c0 "") :: runesOf s1 in
    if b0 <? 0x80 then (b0, String c0 "") :: runesOf s1
    else if between 0xC2 b0 0xDF then
      match s1 with
      | String c1 s2 =>
        let b1 := byte_of c1 in
        if accepts b0 b1
        then (Z.lor (Z.shiftl (Z.land b0 0x1F) 6) (Z.land b1 0x3F),
              String c0 (String c1 "")) :: runesOf s2
        else bad tt
      | _ => bad tt
      end
    else if between 0xE0 b0 0xEF then
      match s1 with
      | String c1 (String c2 s3) =>
        let b1 := byte_of c1 in
        let b2 := byte_of c2 in
        if accepts b0 b1 && isCont b2
        then (Z.lor (Z.shiftl (Z.land b0 0x0F) 12)
                (Z.lor (Z.shiftl (Z.land b1 0x3F) 6) (Z.land b2 0x3F)),
              String c0 (String c1 (String c2 ""))) :: runesOf s3
        else bad tt
      | _ => bad tt
      end
    else if between 0xF0 b0 0xF4 then
      match s1 with
      | String c1 (String c2 (String c3 s4)) =>
        let b1 := byte_of c1 in
        let b2 := byte_of c2 in
        let b3 := byte_of c3 in
        if accepts b0 b1 && isCont b2 && isCont b3
        then (Z.lor (Z.shiftl (Z.land b0 0x07) 18)
                (Z.lor (Z.shiftl (Z.land b1 0x3F) 12)
                   (Z.lor (Z.shiftl (Z.land b2 0x3F) 6) (Z.land b3 0x3F))),
              String c0 (String c1 (String c2 (String c3 "")))) :: runesOf s4
        else bad tt
      | _ => bad tt
      end
    else bad tt
  end.

(** [[]rune(s)]. *)
Definition toRunes (s : string) : list rune := map fst (runesOf s).

(** [utf8.EncodeRune]: the UTF-8 bytes of one rune; a surrogate or a value out
    of range is written as [RuneError]. *)
Definition encodeRune (r : rune) : string :=
  let cont (x : Z) := char_of (Z.lor 0x80 (Z.land x 0x3F)) in
  let three (x : Z) :=
    String (char_of (Z.lor 0xE0 (Z.shiftr x 12)))
      (String (cont (Z.shiftr x 6)) (String (cont x) "")) in
  if between 0 r 0x7F then String (char_of r) ""
  else if between 0x80 r 0x7FF then
    String (char_of (Z.lor 0xC0 (Z.shiftr r 6))) (String (cont r) "")
  else if (r <? 0) || (0x10FFFF <? r) || between 0xD800 r 0xDFFF then
    three RuneError
  else if r <=? 0xFFFF then three r
  else
    String (char_of (Z.lor 0xF0 (Z.shiftr r 18)))
      (String (cont (Z.shiftr r 12))
         (String (cont (Z.shiftr r 6)) (String (cont r) ""))).

(** [string(rs)] for a slice of runes. *)
Definition ofRunes (rs : list rune) : string :=
  fold_right (fun r acc => (encodeRune r ++ acc)%string) "" rs.

(** [unicode.IsSpace]. *)
Definition IsSpace (r : rune) : bool :=
  between 0x09 r 0x0D || (r =? 0x20) || (r =? 0x85) || (r =? 0xA0)
  || (r =? 0x1680) || between 0x2000 r 0x200A || between 0x2028 r 0x2029
  || (r =? 0x202F) || (r =? 0x205F) || (r =? 0x3000).

(** ** Package strings *)

(** The loop of [strings.Fields]: [cur] is the field being read, if any. *)
Fixpoint fieldsFrom (rs : list (rune * string)) (cur : option string)
  : list string :=
  match rs with
  | [] => match cur with Some f => [f] | None => [] end
  | (r, bytes) :: rest =>
    if IsSpace r then
      match cur with
      | Some f => f :: fieldsFrom rest None
      | None => fieldsFrom rest None
      end
    else
      fieldsFrom rest
        (Some (match cur with Some f => (f ++ bytes)%string | None => bytes end))
  end.

(** [strings.Fields]: the maximal runs of non-space runes of [s]. *)
Definition Fields (s : string) : list string := fieldsFrom (runesOf s) None.

Fixpoint dropSpace (rs : list (rune * string)) : list (rune * string) :=
  match rs with
  | (r, _) :: rest => if IsSpace r then dropSpace rest else rs
  | [] => []
  end.

(** [strings.TrimSpace]: [s] without its leading and trailing white space. *)
Definition TrimSpace (s : string) : string :=
  let kept := rev (dropSpace (rev (dropSpace (runesOf s)))) in
  fold_right (fun rb acc => (snd rb ++ acc)%string) "" kept.

(** [strings.Join]. *)
Fixpoint Join (parts : list string) (sep : string) : string :=
  match parts with
  | [] => ""
  | [p] => p
  | p :: rest => (p ++ sep ++ Join rest sep)%string
  end.

(** ** strconv.Atoi, for a 64-bit [int] *)

Definition maxUint64 : Z := 2 ^ 64 - 1.
Definition maxInt64 : Z := 2 ^ 63 - 1.
Definition minInt64 : Z := - 2 ^ 63.

(** The digit loop of [strconv.ParseUint] in base 10. *)
Fixpoint parseDigits (s : string) (n : Z) : NumError + Z :=
  match s with
  | EmptyString => inr n
  | String c rest =>
    let b := byte_of c in
    if between 48 b 57 then
      let n1 := n * 10 + (b - 48) in
      if maxUint64 <? n1 then inl ErrRange else parseDigits rest n1
    else inl ErrSyntax
  end.

Definition Atoi (s : string) : NumError + Z :=
  let signed (neg : bool) (digits : string) : NumError + Z :=
    match digits with
    | EmptyString => inl ErrSyntax
    | _ =>
      match parseDigits digits 0 with
      | inl e => inl e
      | inr un =>
        if negb neg && (maxInt64 <? un) then inl ErrRange
        else if neg && (maxInt64 + 1 <? un) then inl ErrRange
        else inr (if neg then - un else un)
      end
    end in
  match s with
  | EmptyString => inl ErrSyntax
  | String c rest =>
    if (byte_of c =? 43) then signed false rest
    else if (byte_of c =? 45) then signed true rest
    else signed false s
  end.

(** ** parseDay and parseDurationAndWeekParity *)

Definition days : list string := ["Po"; "Út"; "St"; "Čt"; "Pá"].

(** The [for i, d := range days] loop, [i] counting from the index given. *)
Fixpoint parseDayFrom (ds : list string) (i : Z) (day : string) : result Z :=
  match ds with
  | [] => Panic (UnknownDay day)
  | d :: rest => if String.eqb d day then Ok i else parseDayFrom rest (i + 1) day
  end.

Definition parseDay (day : string) : result Z := parseDayFrom days 0 day.

Definition oddWeeks : string := "Liché".

Definition parseDurationAndWeekParity (dur : string) : result (Z * Z) :=
  let w := Fields dur in
  w0 <- index w 0 ;;
  match Atoi w0 with
  | inl err => Panic (UnableToParseDuration err)
  | inr d =>
    let parity :=
      if (1 <? Z.of_nat (List.length w)) then
        match nth_error w 1 with
        | Some w1 => if String.eqb w1 oddWeeks then 1 else 2
        | None => 0
        end
      else 0 in
    Ok (d, parity)
  end.

(** ** Package time: the part the source uses

    A [time.Time] without monotonic clock reading, in UTC: whole seconds since
    January 1 of year 1, 00:00:00, and nanoseconds within the second.  The zero
    [Time] is [sec = 0], [nsec = 0]. *)

Record Time : Type := mkTime { sec : Z; nsec : Z }.

Definition zeroTime : Time := mkTime 0 0.

Definition Time_eqb (a b : Time) : bool :=
  (sec a =? sec b) && (nsec a =? nsec b).

(** A [time.Duration] is an [int64] count of nanoseconds. *)
Definition Nanosecond : Z := 1.
Definition Second : Z := 1000000000 * Nanosecond.
Definition Minute : Z := 60 * Second.

(** Two's-complement wrap-around of [int64] arithmetic. *)
Definition wrap64 (z : Z) : Z := (z + 2 ^ 63) mod 2 ^ 64 - 2 ^ 63.

(** [time.Minute * time.Duration(d)]. *)
Definition minutes (d : Z) : Z := wrap64 (Minute * wrap64 d).

(** [Time.addSec]: the sum saturates instead of overflowing. *)
Definition addSec (t : Time) (d : Z) : Time :=
  let sum := wrap64 (sec t + d) in
  if Bool.eqb (sec t <? sum) (0 <? d) then mkTime sum (nsec t)
  else if 0 <? d then mkTime maxInt64 (nsec t)
  else mkTime (- maxInt64) (nsec t).

(** [Time.Add]. *)
Definition Add (t : Time) (d : Z) : Time :=
  let dsec := Z.quot d 1000000000 in
  let ns := nsec t + Z.rem d 1000000000 in
  if 1000000000 <=? ns then addSec (mkTime (sec t) (ns - 1000000000)) (dsec + 1)
  else if ns <? 0 then addSec (mkTime (sec t) (ns + 1000000000)) (dsec - 1)
  else addSec (mkTime (sec t) ns) dsec.

(** Nanoseconds since January 1 of year 1, and the wall clock [Time.Clock]. *)
Definition instant (t : Time) : Z := sec t * 1000000000 + nsec t.

Definition Clock (t : Time) : Z * Z * Z :=
  let s := sec t mod 86400 in
  (s / 3600, (s mod 3600) / 60, s mod 60).

Definition isDigit (s : string) (i : nat) : bool :=
  match String.get i s with
  | Some c => between 48 (byte_of c) 57
  | None => false
  end.

Definition digit (s : string) (i : nat) : Z :=
  match String.get i s with
  | Some c => byte_of c - 48
  | None => 0
  end.

Definition tail (n : nat) (s : string) : string :=
  String.substring n (String.length s - n) s.

(** [getnum] of package time: one or two digits, exactly two when [fixed]. *)
Definition getnum (s : string) (fixed : bool) : option (Z * string) :=
  if negb (isDigit s 0) then None
  else if negb (isDigit s 1) then
    if fixed then None else Some (digit s 0, tail 1 s)
  else Some (digit s 0 * 10 + digit s 1, tail 2 s).

(** January 1 of year 0, 00:00:00 UTC; year 0 is a leap year. *)
Definition yearZero : Z := - (366 * 86400).

(** [time.Parse("15:04", value)]: an hour of one or two digits, a colon, a
    minute of two digits, and nothing else; [None] stands for the error. *)
Definition ParseHourMinute (value : string) : option Time :=
  match getnum value false with
  | None => None
  | Some (hour, v1) =>
    if (hour <? 0) || (24 <=? hour) then None
    else
      match v1 with
      | String c v2 =>
        if negb (byte_of c =? 58) then None
        else
          match getnum v2 true with
          | None => None
          | Some (min, v3) =>
            if (min <? 0) || (60 <=? min) then None
            else
              match v3 with
              | EmptyString => Some (mkTime (yearZero + hour * 3600 + min * 60) 0)
              | _ => None
              end
          end
      | EmptyString => None
      end
  end.

(** ** Events *)

(** Modelled from the spec: the declaration of the struct [Event] is in a file
    of the package that is not under src/.  The fields are the seven the spec
    lists, with the types [sisparse.go] assigns to them. *)
Record Event : Type := mkEvent {
  Type_ : string;
  Name : string;
  Teacher : string;
  Day : Z;
  TimeFrom : Time;
  TimeTo : Time;
  WeekParity : Z
}.

(** [Event{}]. *)
Definition emptyEvent : Event := mkEvent "" "" "" 0 zeroTime zeroTime 0.

(** [a == b] on events: all fields equal. *)
Definition Event_eqb (a b : Event) : bool :=
  String.eqb (Type_ a) (Type_ b) && String.eqb (Name a) (Name b)
  && String.eqb (Teacher a) (Teacher b) && (Day a =? Day b)
  && Time_eqb (TimeFrom a) (TimeFrom b) && Time_eqb (TimeTo a) (TimeTo b)
  && (WeekParity a =? WeekParity b).

(** ** Slices of runes

    [[]rune(s)] has the runes of [s] as its elements; its capacity may be
    larger (the run-time system rounds the allocation up, or uses a buffer on
    the stack), and the spare capacity holds zeros.  [a[:high]] is checked
    against the capacity, [a[low:]] against the length. *)

Definition sliceTo (a : list rune) (spare high : nat) : result (list rune) :=
  if (high <=? List.length a + spare)%nat
  then Ok (firstn high (a ++ repeat 0 spare))
  else Panic (SliceBoundsOutOfRange 0 (Z.of_nat high)).

Definition sliceFrom (a : list rune) (low : nat) : result (list rune) :=
  if (low <=? List.length a)%nat
  then Ok (skipn low a)
  else Panic (SliceBoundsOutOfRange (Z.of_nat low) (Z.of_nat (List.length a))).

(** ** The HTML document model (golang.org/x/net/html) and package scrape *)

Inductive NodeType : Type :=
| ErrorNode | TextNode | DocumentNode | ElementNode | CommentNode | DoctypeNode.

Definition NodeType_eqb (a b : NodeType) : bool :=
  match a, b with
  | ErrorNode, ErrorNode | TextNode, TextNode | DocumentNode, DocumentNode
  | ElementNode, ElementNode | CommentNode, CommentNode
  | DoctypeNode, DoctypeNode => true
  | _, _ => false
  end.

(** The tags the source tests for, among the atoms of package atom; [Zero] is
    the atom of a node that is no known element. *)
Module atom.

Inductive Atom : Type := Zero | A | Tr | Other (code : N).

Definition eqb (a b : Atom) : bool :=
  match a, b with
  | Zero, Zero | A, A | Tr, Tr => true
  | Other x, Other y => N.eqb x y
  | _, _ => false
  end.

End atom.

Record Attribute : Type := mkAttribute { Key : string; Val : string }.

(** A node with its children in order ([FirstChild], then [NextSibling]).  The
    [Parent] pointer is not stored: a traversal carries the ancestors of the
    node it is at, nearest first. *)
#[local] Unset Elimination Schemes.
Inductive Node : Type :=
| mkNode (Type_ : NodeType) (DataAtom : atom.Atom) (Data : string)
         (Attr : list Attribute) (Children : list Node).
#[local] Set Elimination Schemes.

Definition NType (n : Node) : NodeType := let 'mkNode t _ _ _ _ := n in t.
Definition DataAtom (n : Node) : atom.Atom := let 'mkNode _ a _ _ _ := n in a.
Definition Data (n : Node) : string := let 'mkNode _ _ d _ _ := n in d.
Definition Attr (n : Node) : list Attribute := let 'mkNode _ _ _ a _ := n in a.
Definition Children (n : Node) : list Node := let 'mkNode _ _ _ _ c := n in c.

(** Induction over a document: a property of all children passes to the
    node. *)
Fixpoint Node_tree_ind (P : Node -> Prop)
  (step : forall t a d attrs cs, Forall P cs -> P (mkNode t a d attrs cs))
  (n : Node) : P n :=
  match n with
  | mkNode t a d attrs cs =>
    step t a d attrs cs
      ((fix all (l : list Node) : Forall P l :=
          match l with
          | [] => Forall_nil P
          | c :: rest => Forall_cons c (Node_tree_ind P step c) (all rest)
          end) cs)
  end.

(** A matcher sees a node and, through [Parent], its ancestors. *)
Definition Matcher : Type := list Node -> Node -> bool.

(** [scrape.FindAll]: the matching nodes in document order; below a matching
    node the search does not continue. *)
Fixpoint FindAllIn (matcher : Matcher) (anc : list Node) (n : Node)
  : list Node :=
  if matcher anc n then [n]
  else
    match n with
    | mkNode _ _ _ _ cs => flat_map (FindAllIn matcher (n :: anc)) cs
    end.

(** [scrape.Find]: the first matching node, depth first. *)
Fixpoint FindIn (matcher : Matcher) (anc : list Node) (n : Node)
  : option Node :=
  if matcher anc n then Some n
  else
    match n with
    | mkNode _ _ _ _ cs =>
      (fix first (l : list Node) : option Node :=
         match l with
         | [] => None
         | c :: rest =>
           match FindIn matcher (n :: anc) c with
           | Some found => Some found
           | None => first rest
           end
         end) cs
    end.

Definition FindAll (root : Node) (matcher : Matcher) : list Node :=
  FindAllIn matcher [] root.

Definition Find (root : Node) (matcher : Matcher) : option Node :=
  FindIn matcher [] root.

(** [scrape.Attr]: the value of the first attribute named [key], or [""]. *)
Fixpoint attrOf (attrs : list Attribute) (key : string) : string :=
  match attrs with
  | [] => ""
  | a :: rest => if String.eqb (Key a) key then Val a else attrOf rest key
  end.

Definition scrapeAttr (n : Node) (key : string) : string := attrOf (Attr n) key.

(** [scrape.Text]: the text nodes at and below [n], each trimmed, the empty
    ones dropped, joined by single spaces. *)
Definition Text (n : Node) : string :=
  let nodes := FindAll n (fun _ m => NodeType_eqb (NType m) TextNode) in
  let trimmed := map (fun m => TrimSpace (Data m)) nodes in
  Join (filter (fun t => negb (String.eqb t "")) trimmed) " ".

(** ** The parser of sisparse.go *)

Section Sisparse.

(** The spare capacity the implementation gives to [[]rune(s)], by the number
    of runes of [s]. *)
Variable spareCap : nat -> nat.

Definition withScheduling (e : Event) (day : Z) (from to : Time) (parity : Z)
  : Event :=
  mkEvent (Type_ e) (Name e) (Teacher e) day from to parity.

Definition addEventScheduling (e : Event) (daytime dur : string)
  : result Event :=
  let daytimeRunes := toRunes daytime in
  dayRunes <- sliceTo daytimeRunes (spareCap (List.length daytimeRunes)) 2 ;;
  day <- parseDay (ofRunes dayRunes) ;;
  timeRunes <- sliceFrom daytimeRunes 3 ;;
  match ParseHourMinute (ofRunes timeRunes) with
  | None => Panic (UnableToParseTime (ofRunes timeRunes))
  | Some timeFrom =>
    dp <- parseDurationAndWeekParity dur ;;
    let '(d, parity) := dp in
    Ok (withScheduling e day timeFrom (Add timeFrom (minutes d)) parity)
  end.

(** The cells of a row: the text of every child whose [Data] is not blank. *)
Definition rowCols (event : Node) : list string :=
  map Text
    (filter (fun col => (0 <? Z.of_nat (String.length (TrimSpace (Data col)))))
       (Children event)).

Definition parseEvent (event : Node) : result Event :=
  let cols := rowCols event in
  type <- index cols 1 ;;
  name <- index cols 2 ;;
  teacher <- index cols 3 ;;
  let e := mkEvent type name teacher 0 zeroTime zeroTime 0 in
  if String.eqb (Teacher e) "" then Ok emptyEvent
  else
    daytime <- index cols 4 ;;
    dur <- index cols 6 ;;
    addEventScheduling e daytime dur.

Definition withNameTeacher (e : Event) (name teacher : string) : Event :=
  mkEvent (Type_ e) name teacher (Day e) (TimeFrom e) (TimeTo e) (WeekParity e).

(** [if len(group) > 0 { res = append(res, group) }]. *)
Definition flush (res : list (list Event)) (group : list Event)
  : list (list Event) :=
  if 0 <? Z.of_nat (List.length group) then res ++ [group] else res.

(** The body of the loop of [parseCourseEvents] once the row is parsed: the
    new values of [res] and [group]. *)
Definition addEvent (res : list (list Event)) (group : list Event)
  (event : Event) : result (list (list Event) * list Event) :=
  if Event_eqb event emptyEvent then Ok (res, group)
  else if negb (String.eqb (Name event) "") then
    Ok (flush res group, [] ++ [event])
  else
    first <- index group 0 ;;
    Ok (res, group ++ [withNameTeacher event (Name first) (Teacher first)]).

(** [for _, row := range eventsTable { ... }]. *)
Fixpoint forRows (rows : list Node) (res : list (list Event))
  (group : list Event) : result (list (list Event) * list Event) :=
  match rows with
  | [] => Ok (res, group)
  | row :: rest =>
    event <- parseEvent row ;;
    st <- addEvent res group event ;;
    forRows rest (fst st) (snd st)
  end.

(** The part of [parseCourseEvents] after the rows are found. *)
Definition groupRows (eventsTable : list Node) : result (list (list Event)) :=
  st <- forRows eventsTable [] [] ;;
  Ok (flush (fst st) (snd st)).

(** *** The collaborators: HTML parser, HTTP client, package net/url *)

Definition error := string.

(** [html.Parse] on the bytes read from a body. *)
Variable html_Parse : string -> error + Node.

(** A response body ([io.ReadCloser]): the bytes it delivers, and the number
    of the request it answers. *)
Record ReadCloser : Type := mkBody { handle : nat; content : string }.

(** What the retrieval does to the outside: the URLs it has requested, in
    order, and the response bodies that are open. *)
Record World : Type := mkWorld { requests : list string; openBodies : list nat }.

(** The answer of the network to a GET of a URL: a transport error, or the
    bytes of the response body. *)
Variable server : string -> error + string.

Definition http_Get (url : string) (w : World) : (error + ReadCloser) * World :=
  let n := List.length (requests w) in
  match server url with
  | inl err => (inl err, mkWorld (requests w ++ [url]) (openBodies w))
  | inr bytes =>
    (inr (mkBody n bytes), mkWorld (requests w ++ [url]) (openBodies w ++ [n]))
  end.

(** [body.Close()]. *)
Definition Close (body : ReadCloser) (w : World) : World :=
  mkWorld (requests w)
    (filter (fun h => negb (Nat.eqb h (handle body))) (openBodies w)).

(** [url.Parse], and [ResolveReference] followed by [String]. *)
Variable URL : Type.
Variable url_Parse : string -> error + URL.
Variable url_Resolve : URL -> URL -> string.

Definition sisUrl : string :=
  "https://is.cuni.cz/studium/predmety/index.php?do=predmet&kod=%s&skr=2018&sem=1".

(** [fmt.Sprintf(format, arg)] for a format whose only verb is one [%s]. *)
Fixpoint Sprintf (format arg : string) : string :=
  match format with
  | String "%" (String "s" rest) => (arg ++ rest)%string
  | String c rest => String c (Sprintf rest arg)
  | EmptyString => EmptyString
  end.

Definition scheduleLinkText : string := "Rozvrh".

Definition linkMatcher : Matcher := fun _ n =>
  if atom.eqb (DataAtom n) atom.A
  then String.eqb (Text n) scheduleLinkText
  else false.

Definition errNoScheduleUrl : error := "Couldn't find schedule URL".

Definition getRelativeScheduleUrl (body : ReadCloser)
  : result (string * option error) :=
  match html_Parse (content body) with
  | inl err => Panic (ErrorValue err)
  | inr root =>
    match Find root linkMatcher with
    | None => Ok ("", Some errNoScheduleUrl)
    | Some scheduleLink => Ok (scrapeAttr scheduleLink "href", None)
    end
  end.

(** A [tr] whose grandparent has the id [table1] and which is not the header
    row. *)
Definition rowMatcher : Matcher := fun anc n =>
  match anc with
  | _parent :: grandparent :: _ =>
    if atom.eqb (DataAtom n) atom.Tr
    then String.eqb (scrapeAttr grandparent "id") "table1"
         && negb (String.eqb (scrapeAttr n "class") "head1")
    else false
  | _ => false
  end.

Definition parseCourseEvents (body : ReadCloser) : result (list (list Event)) :=
  match html_Parse (content body) with
  | inl err => Panic (ErrorValue err)
  | inr root =>
    let eventsTable := FindAll root rowMatcher in
    if Z.of_nat (List.length eventsTable) =? 0 then Ok []
    else groupRows eventsTable
  end.

Definition getAbsoluteUrl (base relative : string) : result string :=
  match url_Parse base with
  | inl err => Panic (ErrorValue err)
  | inr baseUrl =>
    match url_Parse relative with
    | inl err => Panic (ErrorValue err)
    | inr relativeUrl => Ok (url_Resolve baseUrl relativeUrl)
    end
  end.

(** [GetCourseEvents]: the pair the function returns, or the panic that ends
    it, and the world it leaves. *)
Definition GetCourseEvents (courseCode : string) (w : World)
  : result (list (list Event) * option error) * World :=
  let '(got, w1) := http_Get (Sprintf sisUrl courseCode) w in
  match got with
  | inl err => (Ok ([], Some err), w1)
  | inr body =>
    match getRelativeScheduleUrl body with
    | Panic p => (Panic p, w1)
    | Ok (_, Some err) => (Ok ([], Some err), w1)
    | Ok (relativeScheduleUrl, None) =>
      match getAbsoluteUrl sisUrl relativeScheduleUrl with
      | Panic p => (Panic p, w1)
      | Ok scheduleUrl =>
        let '(got2, w2) := http_Get scheduleUrl w1 in
        match got2 with
        | inl err => (Ok ([], Some err), w2)
        | inr body2 =>
          match parseCourseEvents body2 with
          | Panic p => (Panic p, w2)
          | Ok groups => (Ok (groups, None), w2)
          end
        end
      end
    end
  end.

End Sisparse.

(** ** A sample site

    A landing page with the schedule link, and a schedule page whose table
    has a header row, a decorative row, a group of two events and a group of
    one. *)

Module Sample.

Definition text (s : string) : Node := mkNode TextNode atom.Zero s [] [].

Definition elem (a : atom.Atom) (tag : string) (attrs : list Attribute)
  (children : list Node) : Node :=
  mkNode ElementNode a tag attrs children.

Definition td (s : string) : Node := elem (atom.Other 1) "td" [] [text s].

(** The white space between the cells of a row, a text node of its own. *)
Definition newline : string := String (ascii_of_nat 10) "".

Definition tr (class : string) (cells : list string) : Node :=
  elem atom.Tr "tr" [mkAttribute "class" class]
    (text newline :: flat_map (fun cell => [td cell; text newline]) cells).

Definition document (body : list Node) : Node :=
  mkNode DocumentNode atom.Zero "" []
    [elem (atom.Other 2) "html" [] [elem (atom.Other 3) "body" [] body]].

Definition link (href label : string) : Node :=
  elem atom.A "a" [mkAttribute "href" href] [text label].

Definition landing : Node :=
  document [link "/other" "Sylabus"; link "/schedule?x=1" " Rozvrh "].

Definition landingNoLink : Node :=
  document [link "/other" "Sylabus"; link "/schedule?x=1" "Rozvrh ZS"].

(** A landing page whose schedule link has no [href], and one with two
    schedule links. *)
Definition landingNoHref : Node :=
  document [link "/other" "Sylabus"; elem atom.A "a" [] [text "Rozvrh"]].

Definition landingTwoLinks : Node :=
  document [link "/schedule?x=1" "Rozvrh"; link "/schedule?x=2" "Rozvrh"].

Definition table (rows : list Node) : Node :=
  elem (atom.Other 4) "table" [mkAttribute "id" "table1"]
    [elem (atom.Other 5) "tbody" [] rows].

Definition header : Node :=
  tr "head1" ["Kód"; "Typ"; "Název"; "Vyučující"; "Kdy"; "Kde"; "Délka"].

Definition lecture : Node :=
  tr "row1" ["18aNMAI057p1"; "P"; "Lineární algebra 1"; "Hladík"; "Po 08:00";
             "S5"; "90"].

Definition lecture2 : Node :=
  tr "row1" ["18aNMAI057p1"; "P"; ""; "Fiala"; "Čt 12:20"; "S3";
             "240 Liché týdny (sudé kalendářní)"].

Definition seminar : Node :=
  tr "row2" ["18aNMAI057x01"; "X"; "Lineární algebra 1"; "Tancer"; "Út 9:00";
             "S11"; "90 Sudé týdny (liché kalendářní)"].

Definition decorative : Node :=
  tr "row1" ["18aNMAI057p1"; "P"; ""; ""; ""; ""; ""].

Definition short : Node := tr "row1" ["18aNMAI057p1"; "P"; "Lineární algebra 1"].

Definition noTime : Node :=
  tr "row1" ["18aNMAI057p1"; "P"; "Lineární algebra 1"; "Hladík"].

Definition longLecture : Node :=
  tr "row1" ["18aNMAI057p1"; "P"; "Lineární algebra 1"; "Hladík"; "Po 08:00";
             "S5"; "153722868"].

Definition schedule : Node :=
  document [table [header; lecture; decorative; lecture2; seminar]].

Definition noTable : Node :=
  document [elem (atom.Other 6) "div" [mkAttribute "class" "error"]
              [text "Rozvrh nenalezen"]].

(** The spare capacity of the implementation's buffer of 32 runes on the
    stack. *)
Definition spareCap (n : nat) : nat := (32 - n)%nat.

Definition landingUrl : string :=
  "https://is.cuni.cz/studium/predmety/index.php?do=predmet&kod=NMAI057&skr=2018&sem=1".

Definition scheduleUrl : string := "https://is.cuni.cz/schedule?x=1".

(** A site that answers the landing URL with [first] and the schedule URL
    with [second]; a body is named by its text. *)
Definition html_Parse (bodies : list (string * Node)) (bytes : string)
  : error + Node :=
  match find (fun kv => String.eqb (fst kv) bytes) bodies with
  | Some kv => inr (snd kv)
  | None => inl "unexpected EOF"
  end.

Definition server (url : string) : error + string :=
  if String.eqb url landingUrl then inr "landing"
  else if String.eqb url scheduleUrl then inr "schedule"
  else inl "no such host".

Definition url_Parse (s : string) : error + string := inr s.

Definition url_Resolve (base relative : string) : string :=
  ("https://is.cuni.cz" ++ relative)%string.

Definition run (first second : Node) (courseCode : string) (w : World)
  : result (list (list Event) * option error) * World :=
  GetCourseEvents spareCap
    (html_Parse [("landing", first); ("schedule", second)])
    server string url_Parse url_Resolve courseCode w.

(** The events of the rows of the sample table. *)
Definition eventOf (row : Node) : Event :=
  match parseEvent spareCap row with
  | Ok e => e
  | Panic _ => emptyEvent
  end.

Definition lectureEvent : Event := Eval vm_compute in eventOf lecture.
Definition lecture2Event : Event := Eval vm_compute in eventOf lecture2.
Definition seminarEvent : Event := Eval vm_compute in eventOf seminar.

End Sample.

(** ** Vocabulary of the statements *)

(** Every node at or below [n], each with its ancestors, in document order. *)
Fixpoint contexts (anc : list Node) (n : Node) : list (list Node * Node) :=
  (anc, n) ::
  match n with
  | mkNode _ _ _ _ cs => flat_map (contexts (n :: anc)) cs
  end.

(** A row that starts a group, and a row that continues one. *)
Definition startsGroup (e : Event) : Prop := Name e <> "".
Definition continues (e : Event) : Prop := e <> emptyEvent /\ Name e = "".

(** Every continuation event comes after some group-start event. *)
Definition continuationsFollowStart (evs : list Event) : Prop :=
  forall i c, nth_error evs i = Some c -> continues c ->
    exists j s, (j < i)%nat /\ nth_error evs j = Some s /\ startsGroup s.

(** A continuation event with the fields of the group's first event. *)
Definition backfill (first e : Event) : Event :=
  withNameTeacher e (Name first) (Teacher first).

(** The network answers a request for [url] with a body. *)
Definition answered (server : string -> error + string) (url : string) : bool :=
  match server url with
  | inr _ => true
  | inl _ => false
  end.

(** A group as the grouping builds it: a first event with a name and a
    teacher, and members that carry the same name and teacher. *)
Definition wellGroup (g : list Event) : Prop :=
  match g with
  | [] => False
  | first :: members =>
    Name first <> "" /\ Teacher first <> ""
    /\ Forall (fun m => Name m = Name first /\ Teacher m = Teacher first)
         members
  end.

(** Two events for the same slot of the timetable: all fields but the name
    and the teacher are equal. *)
Definition sameSlot (a b : Event) : Prop :=
  Type_ a = Type_ b /\ Day a = Day b /\ TimeFrom a = TimeFrom b
  /\ TimeTo a = TimeTo b /\ WeekParity a = WeekParity b.

(** An event that is not the empty event, and an event with a name. *)
Definition nonEmpty (e : Event) : bool := negb (Event_eqb e emptyEvent).
Definition named (e : Event) : bool := negb (String.eqb (Name e) "").

(** * Properties *)

(** ** The model at work *)

Example toRunes_day : toRunes "Čt 12:20" = [268; 116; 32; 49; 50; 58; 50; 48].
Proof. vm_compute. reflexivity. Qed.

Example ofRunes_toRunes : ofRunes (toRunes "Út Pá ≠") = "Út Pá ≠".
Proof. vm_compute. reflexivity. Qed.

Example Fields_of_duration :
  Fields "240 Sudé týdny (liché kalendářní)"
  = ["240"; "Sudé"; "týdny"; "(liché"; "kalendářní)"].
Proof. vm_compute. reflexivity. Qed.

Example TrimSpace_of_cell :
  TrimSpace (Sample.newline ++ "  Hladík " ++ Sample.newline) = "Hladík".
Proof. vm_compute. reflexivity. Qed.

Example Atoi_samples :
  map Atoi ["90"; "-90"; "+7"; ""; "-"; "9O"; "9223372036854775807";
            "9223372036854775808"; "-9223372036854775808"]
  = [inr 90; inr (-90); inr 7; inl ErrSyntax; inl ErrSyntax; inl ErrSyntax;
     inr 9223372036854775807; inl ErrRange; inr (-9223372036854775808)].
Proof. vm_compute. reflexivity. Qed.

Example ParseHourMinute_samples :
  map (fun v => option_map Clock (ParseHourMinute v))
    ["08:00"; "9:00"; "23:59"; "24:00"; "12:5"; "12:60"; "12:20 "; "12.20"]
  = [Some (8, 0, 0); Some (9, 0, 0); Some (23, 59, 0); None; None; None; None;
     None].
Proof. vm_compute. reflexivity. Qed.

Example rowCols_of_lecture :
  rowCols Sample.lecture
  = ["18aNMAI057p1"; "P"; "Lineární algebra 1"; "Hladík"; "Po 08:00"; "S5";
     "90"].
Proof. vm_compute. reflexivity. Qed.

Example sample_retrieval :
  fst (Sample.run Sample.landing Sample.schedule "NMAI057" (mkWorld [] []))
  = Ok ([[Sample.lectureEvent;
          backfill Sample.lectureEvent Sample.lecture2Event];
         [Sample.seminarEvent]], None).
Proof. vm_compute. reflexivity. Qed.

(** ** Decoding of days and of durations *)

Lemma parseDayFrom_unknown (ds : list string) (i : Z) (day : string) :
  ~ In day ds -> parseDayFrom ds i day = Panic (UnknownDay day).
Proof.
  revert i. induction ds as [|d ds IH]; intros i Hnot; simpl.
  - reflexivity.
  - destruct (String.eqb_spec d day) as [->|_].
    + exfalso. apply Hnot. now left.
    + apply IH. intro Hin. apply Hnot. now right.
Qed.

(** C3: the five day abbreviations decode, in the order of the source, to the
    indices 0, 1, 2, 3 and 4; every other token makes [parseDay] fail with the
    unknown-day panic, and no token outside the five yields an index. *)
Theorem parseDay_five_days :
  map parseDay ["Po"; "Út"; "St"; "Čt"; "Pá"] = [Ok 0; Ok 1; Ok 2; Ok 3; Ok 4]
  /\ forall day, ~ In day ["Po"; "Út"; "St"; "Čt"; "Pá"] ->
       parseDay day = Panic (UnknownDay day).
Proof.
  split.
  - vm_compute. reflexivity.
  - intros day Hnot. unfold parseDay. now apply parseDayFrom_unknown.
Qed.

Lemma parseDay_five_days_witness :
  parseDay "So" = Panic (UnknownDay "So").
Proof.
  apply (proj2 parseDay_five_days "So").
  simpl. intros [H|[H|[H|[H|[H|[]]]]]]; discriminate H.
Defined.

(** Decoding takes at least one byte for each rune. *)
Lemma runesOf_step (c0 : ascii) (s1 : string) :
  exists r chunk rest,
    runesOf (String c0 s1) = (r, chunk) :: runesOf rest
    /\ chunk <> ""
    /\ (String.length rest <= String.length s1)%nat.
Proof.
  cbn [runesOf].
  destruct (byte_of c0 <? 128); [do 3 eexists; repeat split; [discriminate | lia]|].
  destruct (between 194 (byte_of c0) 223).
  { destruct s1 as [|c1 s2].
    - do 3 eexists. repeat split; [discriminate | lia].
    - destruct (accepts (byte_of c0) (byte_of c1));
        do 3 eexists; (split; [reflexivity|]); split;
          try discriminate; cbn [String.length]; lia. }
  destruct (between 224 (byte_of c0) 239).
  { destruct s1 as [|c1 [|c2 s3]];
      try (do 3 eexists; (split; [reflexivity|]); split;
           [discriminate | cbn [String.length]; lia]).
    destruct (accepts (byte_of c0) (byte_of c1) && isCont (byte_of c2));
      do 3 eexists; (split; [reflexivity|]); split;
        try discriminate; cbn [String.length]; lia. }
  destruct (between 240 (byte_of c0) 244).
  { destruct s1 as [|c1 [|c2 [|c3 s4]]];
      try (do 3 eexists; (split; [reflexivity|]); split;
           [discriminate | cbn [String.length]; lia]).
    destruct (accepts (byte_of c0) (byte_of c1) && isCont (byte_of c2)
              && isCont (byte_of c3));
      do 3 eexists; (split; [reflexivity|]); split;
        try discriminate; cbn [String.length]; lia. }
  do 3 eexists. repeat split; [discriminate | lia].
Qed.

Lemma runesOf_chunks (s : string) :
  Forall (fun rb => snd rb <> "") (runesOf s).
Proof.
  remember (String.length s) as n eqn:Hn.
  assert (Hle : (String.length s <= n)%nat) by lia. clear Hn.
  revert s Hle. induction n as [|n IH]; intros s Hle.
  - destruct s; [constructor | cbn [String.length] in Hle; lia].
  - destruct s as [|c0 s1]; [constructor|].
    destruct (runesOf_step c0 s1) as (r & chunk & rest & -> & Hchunk & Hlen).
    constructor; [exact Hchunk|]. apply IH.
    cbn [String.length] in Hle. lia.
Qed.

Lemma fieldsFrom_nonempty (rs : list (rune * string)) :
  Forall (fun rb => snd rb <> "") rs ->
  forall cur, (forall f, cur = Some f -> f <> "") ->
  Forall (fun f => f <> "") (fieldsFrom rs cur).
Proof.
  induction 1 as [|[r bytes] rs Hbytes _ IH]; intros cur Hcur.
  - cbn [fieldsFrom]. destruct cur as [f|]; repeat constructor. now apply Hcur.
  - cbn [fieldsFrom]. cbn [snd] in Hbytes. destruct (IsSpace r).
    + destruct cur as [f|].
      * constructor; [now apply Hcur | apply IH; discriminate].
      * apply IH. discriminate.
    + apply IH. intros f Hf. injection Hf as <-.
      destruct cur as [g|]; [|exact Hbytes].
      destruct g; [now contradiction (Hcur "" eq_refl) | discriminate].
Qed.

(** No field of [strings.Fields] is empty. *)
Lemma Fields_nonempty (s f : string) : In f (Fields s) -> f <> "".
Proof.
  intros Hin.
  pose proof (fieldsFrom_nonempty (runesOf s) (runesOf_chunks s) None) as Hall.
  rewrite Forall_forall in Hall. apply Hall; [discriminate | exact Hin].
Qed.

(** C2: [parseDurationAndWeekParity] splits the token on white space; when
    the first field is an integer it returns it with the parity the second
    field alone decides (none: 0, the odd-weeks marker: 1, anything else: 2),
    and it fails when the first field is no integer.  A field that is present
    is never empty.  So ["90"] gives (90, 0), ["240 Liché ..."] gives (240, 1)
    and ["240 Sudé ..."] gives (240, 2). *)
Theorem parseDurationAndWeekParity_fields :
  (forall dur first rest, Fields dur = first :: rest ->
     parseDurationAndWeekParity dur =
     match Atoi first with
     | inr d =>
       Ok (d, match rest with
              | [] => 0
              | second :: _ => if String.eqb second "Liché" then 1 else 2
              end)
     | inl err => Panic (UnableToParseDuration err)
     end)
  /\ (forall dur field, In field (Fields dur) -> field <> "")
  /\ parseDurationAndWeekParity "90" = Ok (90, 0)
  /\ parseDurationAndWeekParity "240 Liché týdny (sudé kalendářní)" = Ok (240, 1)
  /\ parseDurationAndWeekParity "240 Sudé týdny (liché kalendářní)" = Ok (240, 2)
  /\ parseDurationAndWeekParity "90min" = Panic (UnableToParseDuration ErrSyntax).
Proof.
  split; [|split; [exact Fields_nonempty|repeat split; vm_compute; reflexivity]].
  intros dur first rest Hfields.
  unfold parseDurationAndWeekParity. rewrite Hfields.
  cbn [index nth_error bind].
  destruct (Atoi first) as [err|d]; [reflexivity|].
  destruct rest as [|second more]; [reflexivity|].
  cbn [nth_error List.length].
  destruct (Z.ltb_spec 1 (Z.of_nat (S (S (List.length more))))) as [_|Hle].
  - reflexivity.
  - lia.
Qed.

Lemma parseDurationAndWeekParity_fields_witness :
  parseDurationAndWeekParity "120 každý týden" = Ok (120, 2).
Proof.
  apply (proj1 parseDurationAndWeekParity_fields
           "120 každý týden" "120" ["každý"; "týden"]).
  vm_compute. reflexivity.
Defined.

(** ** The row parser *)

Lemma Time_eqb_eq (a b : Time) : Time_eqb a b = true <-> a = b.
Proof.
  destruct a as [s1 n1], b as [s2 n2]. unfold Time_eqb. simpl.
  rewrite andb_true_iff, !Z.eqb_eq. split.
  - intros [-> ->]. reflexivity.
  - intros H. injection H as -> ->. split; reflexivity.
Qed.

Lemma Event_eqb_eq (a b : Event) : Event_eqb a b = true <-> a = b.
Proof.
  destruct a, b. unfold Event_eqb. simpl.
  rewrite !andb_true_iff, !String.eqb_eq, !Z.eqb_eq, !Time_eqb_eq. split.
  - intros [[[[[[-> ->] ->] ->] ->] ->] ->]. reflexivity.
  - intros H. injection H as -> -> -> -> -> -> ->. repeat split.
Qed.

Lemma Event_eqb_refl (a : Event) : Event_eqb a a = true.
Proof. now apply Event_eqb_eq. Qed.

Lemma Event_eqb_neq (a b : Event) : a <> b -> Event_eqb a b = false.
Proof.
  intros Hne. destruct (Event_eqb a b) eqn:E; [|reflexivity].
  apply Event_eqb_eq in E. contradiction.
Qed.

Section ParserProperties.

Variable spareCap : nat -> nat.

(** C10: [parseEvent] indexes the cells of the row unchecked.  A row of fewer
    than 4 non-blank cells faults at the first of the indices 1, 2, 3 that is
    out of range; a row with a non-empty teacher cell and fewer than 7 cells
    faults at index 4 or at index 6. *)
Theorem parseEvent_unchecked_indexing (row : Node) :
  let n := List.length (rowCols row) in
  ((n < 4)%nat ->
   parseEvent spareCap row = Panic (IndexOutOfRange (Z.max 1 (Z.of_nat n)) (Z.of_nat n)))
  /\ (forall teacher,
        nth_error (rowCols row) 3 = Some teacher -> teacher <> "" ->
        (n < 7)%nat ->
        parseEvent spareCap row =
        Panic (IndexOutOfRange (if (n =? 4)%nat then 4 else 6) (Z.of_nat n))).
Proof.
  unfold parseEvent.
  destruct (rowCols row) as [|c0 [|c1 [|c2 [|c3 cols]]]]; cbn zeta; split;
    try (intros _; reflexivity);
    try (intros teacher Hnth; discriminate Hnth);
    try (intros Hlt; simpl in Hlt; lia).
  intros teacher Hnth Hteacher Hlt. simpl in Hnth. injection Hnth as ->.
  cbn [index nth_error bind Teacher].
  destruct (String.eqb_spec teacher "") as [->|_]; [contradiction|].
  destruct cols as [|c4 [|c5 [|c6 cols]]]; try reflexivity.
  simpl in Hlt. lia.
Qed.

(** C4: a row whose teacher cell, the cell of index 3, is empty parses to the
    empty event, and the grouping loop passes over it: with the row or
    without it, [res] and [group] after the loop, and so the groups returned,
    are the same. *)
Theorem empty_teacher_row_is_skipped (row : Node) :
  nth_error (rowCols row) 3 = Some "" ->
  parseEvent spareCap row = Ok emptyEvent
  /\ (forall before after res group,
        forRows spareCap (before ++ row :: after) res group
        = forRows spareCap (before ++ after) res group)
  /\ (forall before after,
        groupRows spareCap (before ++ row :: after) = groupRows spareCap (before ++ after)).
Proof.
  intros Hteacher.
  assert (Hparse : parseEvent spareCap row = Ok emptyEvent).
  { unfold parseEvent.
    destruct (rowCols row) as [|c0 [|c1 [|c2 [|c3 cols]]]];
      try discriminate Hteacher.
    simpl in Hteacher. injection Hteacher as ->. reflexivity. }
  assert (Hloop : forall before after res group,
             forRows spareCap (before ++ row :: after) res group
             = forRows spareCap (before ++ after) res group).
  { induction before as [|r before IH]; intros after res group; simpl.
    - rewrite Hparse. reflexivity.
    - destruct (parseEvent spareCap r) as [event|p]; [|reflexivity]. simpl.
      destruct (addEvent res group event) as [[res' group']|p]; [|reflexivity].
      simpl. apply IH. }
  repeat split; [exact Hparse | exact Hloop |].
  intros before after. unfold groupRows. now rewrite Hloop.
Qed.

(** *** The end time *)

Lemma bind_Ok {A B : Type} (r : result A) (k : A -> result B) (b : B) :
  bind r k = Ok b -> exists a, r = Ok a /\ k a = Ok b.
Proof.
  destruct r as [a|p]; simpl; intros H; [eauto | discriminate H].
Qed.

Lemma wrap64_small (z : Z) : minInt64 <= z <= maxInt64 -> wrap64 z = z.
Proof.
  unfold minInt64, maxInt64, wrap64. intros H.
  rewrite Z.mod_small; lia.
Qed.

Lemma sliceTo_within (a : list rune) (spare high : nat) :
  (high <= List.length a)%nat -> sliceTo a spare high = Ok (firstn high a).
Proof.
  intros H. unfold sliceTo.
  destruct (Nat.leb_spec high (List.length a + spare)) as [_|Hgt]; [|lia].
  rewrite firstn_app.
  replace (high - List.length a)%nat with 0%nat by lia.
  cbn [firstn]. now rewrite app_nil_r.
Qed.

(** A time of day that [time.Parse] returns is within January 1 of year 0
    and has no nanoseconds. *)
Lemma ParseHourMinute_range (value : string) (t : Time) :
  ParseHourMinute value = Some t ->
  nsec t = 0 /\ yearZero <= sec t < yearZero + 86400.
Proof.
  unfold ParseHourMinute. intros H.
  destruct (getnum value false) as [[hour v1]|]; [|discriminate H].
  destruct ((hour <? 0) || (24 <=? hour)) eqn:Ehour; [discriminate H|].
  destruct v1 as [|c v2]; [discriminate H|].
  destruct (negb (byte_of c =? 58)); [discriminate H|].
  destruct (getnum v2 true) as [[min v3]|]; [|discriminate H].
  destruct ((min <? 0) || (60 <=? min)) eqn:Emin; [discriminate H|].
  destruct v3; [|discriminate H].
  assert (Ht : t = mkTime (yearZero + hour * 3600 + min * 60) 0) by congruence.
  subst t. cbn [sec nsec].
  apply orb_false_iff in Ehour, Emin.
  destruct Ehour as [Eh1 Eh2], Emin as [Em1 Em2].
  apply Z.ltb_ge in Eh1, Em1. apply Z.leb_gt in Eh2, Em2. lia.
Qed.

(** Adding a whole number of minutes that fits a [Duration]. *)
Lemma Add_minutes (t : Time) (d : Z) :
  nsec t = 0 -> yearZero <= sec t < yearZero + 86400 ->
  minInt64 <= d * Minute <= maxInt64 ->
  Add t (minutes d) = mkTime (sec t + 60 * d) 0.
Proof.
  intros Hns Hsec Hfit.
  change Minute with 60000000000 in Hfit.
  unfold minInt64, maxInt64, yearZero in *.
  assert (Hd : minutes d = (60 * d) * 1000000000).
  { unfold minutes. change Minute with 60000000000.
    rewrite (wrap64_small d) by (unfold minInt64, maxInt64; lia).
    rewrite wrap64_small by (unfold minInt64, maxInt64; lia). lia. }
  rewrite Hd. unfold Add.
  rewrite Z.quot_mul by lia. rewrite Z.rem_mul by lia.
  rewrite Hns. cbn [Z.add Z.leb Z.ltb Z.compare].
  unfold addSec. cbn [sec nsec].
  rewrite wrap64_small by (unfold minInt64, maxInt64; lia).
  destruct (Z.ltb_spec (sec t) (sec t + 60 * d));
    destruct (Z.ltb_spec 0 (60 * d)); try lia; reflexivity.
Qed.

Lemma addEventScheduling_Ok (e : Event) (daytime dur : string) (e' : Event) :
  addEventScheduling spareCap e daytime dur = Ok e' ->
  exists day timeFrom d parity,
    ParseHourMinute (ofRunes (skipn 3 (toRunes daytime))) = Some timeFrom
    /\ parseDurationAndWeekParity dur = Ok (d, parity)
    /\ e' = withScheduling e day timeFrom (Add timeFrom (minutes d)) parity.
Proof.
  unfold addEventScheduling. intros H.
  apply bind_Ok in H as (dayRunes & _ & H).
  apply bind_Ok in H as (day & _ & H).
  apply bind_Ok in H as (timeRunes & Hslice & H).
  unfold sliceFrom in Hslice.
  destruct (_ <=? _)%nat; [|discriminate Hslice]. injection Hslice as <-.
  destruct (ParseHourMinute _) as [timeFrom|] eqn:Etime; [|discriminate H].
  apply bind_Ok in H as ([d parity] & Hdur & H). injection H as <-.
  exists day, timeFrom, d, parity. auto.
Qed.

(** C6, amended: for every event [addEventScheduling] returns, the decoded
    minute count [d] is the one of the duration token, and whenever [d]
    minutes fit a [time.Duration] (an [int64] of nanoseconds) the end time is
    the start time plus [d] minutes.  A start of 08:00 with 90 minutes ends
    at 09:30. *)
Theorem TimeTo_is_TimeFrom_plus_minutes :
  (forall e daytime dur e',
     addEventScheduling spareCap e daytime dur = Ok e' ->
     exists d parity,
       parseDurationAndWeekParity dur = Ok (d, parity)
       /\ (minInt64 <= d * Minute <= maxInt64 ->
           instant (TimeTo e') = instant (TimeFrom e') + d * Minute))
  /\ (forall e, exists e',
        addEventScheduling spareCap e "Po 08:00" "90" = Ok e'
        /\ Clock (TimeFrom e') = (8, 0, 0) /\ Clock (TimeTo e') = (9, 30, 0)).
Proof.
  split.
  - intros e daytime dur e' H.
    apply addEventScheduling_Ok in H as (day & timeFrom & d & parity & Ht & Hd & ->).
    exists d, parity. split; [exact Hd|]. intros Hfit.
    apply ParseHourMinute_range in Ht as [Hns Hsec].
    cbn [withScheduling TimeTo TimeFrom].
    rewrite Add_minutes by assumption.
    unfold instant. cbn [sec nsec]. rewrite Hns.
    change Minute with 60000000000. lia.
  - intros e. eexists. unfold addEventScheduling.
    rewrite sliceTo_within by (vm_compute; lia).
    split; [vm_compute; reflexivity|].
    split; vm_compute; reflexivity.
Qed.

(** *** The grouping loop *)

Lemma flush_nil (res : list (list Event)) : flush res [] = res.
Proof. reflexivity. Qed.

Lemma flush_cons (res : list (list Event)) (e : Event) (g : list Event) :
  flush res (e :: g) = res ++ [e :: g].
Proof. reflexivity. Qed.

Lemma flush_app (before res : list (list Event)) (group : list Event) :
  flush (before ++ res) group = before ++ flush res group.
Proof.
  destruct group as [|e g].
  - now rewrite !flush_nil.
  - rewrite !flush_cons. now rewrite app_assoc.
Qed.

Lemma event_cases (e : Event) :
  e = emptyEvent \/ startsGroup e \/ continues e.
Proof.
  destruct (Event_eqb e emptyEvent) eqn:E.
  - left. now apply Event_eqb_eq.
  - right. unfold startsGroup, continues.
    destruct (String.eqb_spec (Name e) "") as [Hname|Hname].
    + right. split; [|exact Hname]. intros ->.
      rewrite Event_eqb_refl in E. discriminate E.
    + left. exact Hname.
Qed.

Lemma addEvent_empty (res : list (list Event)) (group : list Event) :
  addEvent res group emptyEvent = Ok (res, group).
Proof. reflexivity. Qed.

Lemma addEvent_start (res : list (list Event)) (group : list Event)
  (e : Event) :
  startsGroup e -> addEvent res group e = Ok (flush res group, [e]).
Proof.
  unfold startsGroup, addEvent. intros Hname.
  rewrite Event_eqb_neq by (intros ->; now apply Hname).
  destruct (String.eqb_spec (Name e) "") as [Heq|_]; [contradiction|].
  reflexivity.
Qed.

Lemma addEvent_continues (res : list (list Event)) (first : Event)
  (g : list Event) (e : Event) :
  continues e ->
  addEvent res (first :: g) e = Ok (res, (first :: g) ++ [backfill first e]).
Proof.
  unfold continues, addEvent. intros [Hne Hname].
  rewrite Event_eqb_neq by exact Hne. rewrite Hname. reflexivity.
Qed.

Lemma addEvent_continues_nil (res : list (list Event)) (e : Event) :
  continues e -> addEvent res [] e = Panic (IndexOutOfRange 0 0).
Proof.
  unfold continues, addEvent. intros [Hne Hname].
  rewrite Event_eqb_neq by exact Hne. rewrite Hname. reflexivity.
Qed.

Lemma forRows_app (rows1 rows2 : list Node) (res : list (list Event))
  (group : list Event) :
  forRows spareCap (rows1 ++ rows2) res group =
  (st <- forRows spareCap rows1 res group ;;
   forRows spareCap rows2 (fst st) (snd st)).
Proof.
  revert res group. induction rows1 as [|r rows1 IH]; intros res group.
  - reflexivity.
  - cbn [app forRows]. destruct (parseEvent spareCap r) as [e|p]; [|reflexivity].
    cbn [bind]. destruct (addEvent res group e) as [st|p]; [|reflexivity].
    cbn [bind]. apply IH.
Qed.

(** Groups already in [res] are not touched by the loop. *)
Lemma forRows_prefix (rows : list Node) (before res : list (list Event))
  (group : list Event) :
  forRows spareCap rows (before ++ res) group =
  (st <- forRows spareCap rows res group ;; Ok (before ++ fst st, snd st)).
Proof.
  revert res group. induction rows as [|r rows IH]; intros res group.
  - reflexivity.
  - cbn [forRows]. destruct (parseEvent spareCap r) as [e|p]; [|reflexivity].
    cbn [bind].
    destruct (event_cases e) as [->|[Hstart|Hcont]].
    + rewrite !addEvent_empty. cbn [bind fst snd]. apply IH.
    + rewrite !addEvent_start by exact Hstart. cbn [bind fst snd].
      rewrite flush_app. apply IH.
    + destruct group as [|first g].
      * rewrite !addEvent_continues_nil by exact Hcont. reflexivity.
      * rewrite !addEvent_continues by exact Hcont. cbn [bind fst snd].
        apply IH.
Qed.

(** Rows without a name, met while a group is open, join that group. *)
Lemma forRows_continuations (rows : list Node) (conts : list Event) :
  Forall2 (fun r e => parseEvent spareCap r = Ok e /\ Name e = "") rows conts ->
  forall res first g,
    forRows spareCap rows res (first :: g) =
    Ok (res,
        first :: g ++ map (backfill first)
                        (filter (fun e => negb (Event_eqb e emptyEvent)) conts)).
Proof.
  induction 1 as [|r e rows conts [Hparse Hname] _ IH]; intros res first g.
  - cbn [forRows filter map]. now rewrite app_nil_r.
  - cbn [forRows filter]. rewrite Hparse. cbn [bind].
    destruct (Event_eqb e emptyEvent) eqn:E.
    + apply Event_eqb_eq in E. subst e. rewrite addEvent_empty.
      cbn [bind fst snd negb]. apply IH.
    + rewrite addEvent_continues.
      2:{ split; [|exact Hname]. intros ->.
          rewrite Event_eqb_refl in E. discriminate E. }
      cbn [bind fst snd negb map]. rewrite <- app_comm_cons.
      rewrite IH. now rewrite <- app_assoc.
Qed.

Lemma addEventScheduling_keeps (e : Event) (daytime dur : string)
  (e' : Event) :
  addEventScheduling spareCap e daytime dur = Ok e' ->
  Name e' = Name e /\ Teacher e' = Teacher e.
Proof.
  intros H.
  apply addEventScheduling_Ok in H as (day & timeFrom & d & parity & _ & _ & ->).
  split; reflexivity.
Qed.

(** A parsed row with a name has a teacher. *)
Lemma parseEvent_named (row : Node) (e : Event) :
  parseEvent spareCap row = Ok e -> Name e <> "" -> Teacher e <> "".
Proof.
  unfold parseEvent. intros H Hname.
  apply bind_Ok in H as (type & _ & H).
  apply bind_Ok in H as (name & _ & H).
  apply bind_Ok in H as (teacher & _ & H).
  cbn [Teacher] in H.
  destruct (String.eqb_spec teacher "") as [_|Hteacher].
  - assert (He : e = emptyEvent) by congruence. subst e.
    exfalso. now apply Hname.
  - apply bind_Ok in H as (daytime & _ & H).
    apply bind_Ok in H as (dur & _ & H).
    apply addEventScheduling_keeps in H as [_ Hkeep].
    rewrite Hkeep. exact Hteacher.
Qed.

(** C1: a run of rows of which the first has a name and the others have
    none yields exactly one group, wherever the run stands in the table: the
    groups are those of the rows before, this one group, and those of the rows
    after.  Its members are the first event and the later events of the run
    that are not empty, and each carries the name and the teacher of the
    first event, neither of them empty. *)
Theorem run_is_one_group
  (pre : list Node) (rowFirst : Node) (rowsConts post : list Node)
  (first : Event) (conts : list Event) (before after : list (list Event)) :
  groupRows spareCap pre = Ok before ->
  parseEvent spareCap rowFirst = Ok first ->
  Name first <> "" ->
  Forall2 (fun r e => parseEvent spareCap r = Ok e /\ Name e = "")
    rowsConts conts ->
  (post = [] \/
   exists r rest e,
     post = r :: rest /\ parseEvent spareCap r = Ok e /\ Name e <> "") ->
  groupRows spareCap post = Ok after ->
  let members :=
    first :: map (backfill first)
               (filter (fun e => negb (Event_eqb e emptyEvent)) conts) in
  groupRows spareCap (pre ++ rowFirst :: rowsConts ++ post)
  = Ok (before ++ [members] ++ after)
  /\ Forall (fun m => Name m = Name first /\ Teacher m = Teacher first) members
  /\ Teacher first <> "".
Proof.
  intros Hpre Hfirst Hname Hconts Hpost Hafter members.
  split; [|split].
  - unfold groupRows in *.
    apply bind_Ok in Hpre as ([res0 group0] & Hloop & Hflush).
    cbn [fst snd] in Hflush.
    assert (Hbefore : flush res0 group0 = before) by congruence.
    rewrite forRows_app, Hloop. cbn [bind fst snd forRows].
    rewrite Hfirst. cbn [bind].
    rewrite addEvent_start by exact Hname. cbn [bind fst snd].
    rewrite Hbefore, forRows_app.
    rewrite (forRows_continuations _ _ Hconts). cbn [bind fst snd app].
    fold members.
    destruct Hpost as [->|(r & rest & e & -> & Hparse & Hstart)].
    + cbn [forRows bind fst snd]. cbn [forRows bind fst snd] in Hafter.
      rewrite flush_nil in Hafter.
      assert (Hnil : after = []) by congruence. subst after.
      unfold members. rewrite flush_cons. reflexivity.
    + cbn [forRows] in Hafter |- *. rewrite Hparse in Hafter |- *.
      cbn [bind] in Hafter |- *.
      rewrite addEvent_start in Hafter |- * by exact Hstart.
      cbn [bind fst snd] in Hafter |- *.
      rewrite flush_nil in Hafter. unfold members at 1. rewrite flush_cons.
      fold members.
      apply bind_Ok in Hafter as ([res1 group1] & Hrest & Hflush1).
      cbn [fst snd] in Hflush1.
      rewrite <- (app_nil_r (before ++ [members])).
      rewrite forRows_prefix, Hrest. cbn [bind fst snd].
      rewrite flush_app, <- app_assoc.
      assert (Hrest1 : flush res1 group1 = after) by congruence.
      now rewrite Hrest1.
  - unfold members. constructor; [split; reflexivity|].
    apply Forall_forall. intros m Hin. apply in_map_iff in Hin as (e & <- & _).
    split; reflexivity.
  - now apply (parseEvent_named rowFirst).
Qed.

(** *** The first element of the accumulator *)

Lemma addEvent_Panic (res : list (list Event)) (group : list Event)
  (e : Event) (p : panic) :
  addEvent res group e = Panic p ->
  p = IndexOutOfRange 0 0 /\ group = [] /\ continues e.
Proof.
  destruct (event_cases e) as [->|[Hstart|Hcont]].
  - rewrite addEvent_empty. discriminate.
  - rewrite addEvent_start by exact Hstart. discriminate.
  - destruct group as [|first g].
    + rewrite addEvent_continues_nil by exact Hcont.
      intros H. injection H as <-. auto.
    + rewrite addEvent_continues by exact Hcont. discriminate.
Qed.

(** Once a group is open the loop runs to its end, and a group is open then. *)
Lemma forRows_open (rows : list Node) (evs : list Event) :
  Forall2 (fun r e => parseEvent spareCap r = Ok e) rows evs ->
  forall res first g,
    exists res' first' g',
      forRows spareCap rows res (first :: g) = Ok (res', first' :: g').
Proof.
  induction 1 as [|r e rows evs Hparse _ IH]; intros res first g.
  - cbn [forRows]. eauto.
  - cbn [forRows]. rewrite Hparse. cbn [bind].
    destruct (event_cases e) as [->|[Hstart|Hcont]].
    + rewrite addEvent_empty. cbn [bind fst snd]. apply IH.
    + rewrite addEvent_start by exact Hstart. cbn [bind fst snd]. apply IH.
    + rewrite addEvent_continues by exact Hcont. cbn [bind fst snd].
      rewrite <- app_comm_cons. apply IH.
Qed.

Lemma follow_tail (e : Event) (evs : list Event) :
  ~ startsGroup e ->
  continuationsFollowStart (e :: evs) -> continuationsFollowStart evs.
Proof.
  intros Hnot Hfollow i c Hnth Hcont.
  destruct (Hfollow (S i) c Hnth Hcont) as (j & s & Hlt & Hj & Hs).
  destruct j as [|j]; cbn [nth_error] in Hj.
  - injection Hj as <-. contradiction.
  - exists j, s. repeat split; [lia | exact Hj | exact Hs].
Qed.

Lemma follow_cons (e : Event) (evs : list Event) :
  ~ continues e ->
  (startsGroup e \/ continuationsFollowStart evs) ->
  continuationsFollowStart (e :: evs).
Proof.
  intros Hnot Hor i c Hnth Hcont.
  destruct i as [|i]; cbn [nth_error] in Hnth.
  - injection Hnth as <-. contradiction.
  - destruct Hor as [Hstart|Hfollow].
    + exists 0%nat, e. repeat split; [lia | exact Hstart].
    + destruct (Hfollow i c Hnth Hcont) as (j & s & Hlt & Hj & Hs).
      exists (S j), s. repeat split; [lia | exact Hj | exact Hs].
Qed.

Lemma empty_not_start : ~ startsGroup emptyEvent.
Proof. intros H. now apply H. Qed.

Lemma empty_not_continues : ~ continues emptyEvent.
Proof. intros [H _]. now apply H. Qed.

Lemma start_not_continues (e : Event) : startsGroup e -> ~ continues e.
Proof. intros Hstart [_ Hname]. now apply Hstart. Qed.

(** With the precondition the loop ends without a fault. *)
Lemma forRows_follow (rows : list Node) (evs : list Event) :
  Forall2 (fun r e => parseEvent spareCap r = Ok e) rows evs ->
  continuationsFollowStart evs ->
  forall res, exists st, forRows spareCap rows res [] = Ok st.
Proof.
  induction 1 as [|r e rows evs Hparse Hrest IH]; intros Hfollow res.
  - cbn [forRows]. eauto.
  - cbn [forRows]. rewrite Hparse. cbn [bind].
    destruct (event_cases e) as [->|[Hstart|Hcont]].
    + rewrite addEvent_empty. cbn [bind fst snd].
      apply IH. now apply (follow_tail emptyEvent), Hfollow; apply empty_not_start.
    + rewrite addEvent_start by exact Hstart. cbn [bind fst snd].
      destruct (forRows_open _ _ Hrest (flush res []) e [])
        as (res' & first' & g' & Hloop).
      eauto.
    + destruct (Hfollow 0%nat e eq_refl Hcont) as (j & _ & Hlt & _). lia.
Qed.

(** After a group-start row the accumulator is not empty. *)
Lemma forRows_started (rows : list Node) (evs : list Event) :
  Forall2 (fun r e => parseEvent spareCap r = Ok e) rows evs ->
  forall s, In s evs -> startsGroup s ->
  forall res group st,
    forRows spareCap rows res group = Ok st -> snd st <> [].
Proof.
  induction 1 as [|r e rows evs Hparse Hrest IH];
    intros s Hin Hs res group st Hloop.
  - destruct Hin.
  - cbn [forRows] in Hloop. rewrite Hparse in Hloop. cbn [bind] in Hloop.
    apply bind_Ok in Hloop as (st1 & Hadd & Hloop).
    destruct Hin as [->|Hin].
    + rewrite addEvent_start in Hadd by exact Hs. injection Hadd as <-.
      cbn [fst snd] in Hloop.
      destruct (forRows_open _ _ Hrest (flush res group) s [])
        as (res' & first' & g' & Hopen).
      rewrite Hopen in Hloop. injection Hloop as <-. discriminate.
    + now apply (IH s Hin Hs _ _ _ Hloop).
Qed.

(** A loop that ends without a fault has met the precondition. *)
Lemma forRows_Ok_follow (rows : list Node) (evs : list Event) :
  Forall2 (fun r e => parseEvent spareCap r = Ok e) rows evs ->
  forall res st,
    forRows spareCap rows res [] = Ok st -> continuationsFollowStart evs.
Proof.
  induction 1 as [|r e rows evs Hparse Hrest IH]; intros res st Hloop.
  - intros [|i] c Hnth; discriminate Hnth.
  - cbn [forRows] in Hloop. rewrite Hparse in Hloop. cbn [bind] in Hloop.
    destruct (event_cases e) as [->|[Hstart|Hcont]].
    + rewrite addEvent_empty in Hloop. cbn [bind fst snd] in Hloop.
      apply follow_cons; [apply empty_not_continues|].
      right. now apply (IH _ _ Hloop).
    + apply follow_cons; [now apply start_not_continues | now left].
    + rewrite addEvent_continues_nil in Hloop by exact Hcont.
      discriminate Hloop.
Qed.

(** When every row parses, the loop can only fault at [group[0]]. *)
Lemma forRows_Panic (rows : list Node) (evs : list Event) :
  Forall2 (fun r e => parseEvent spareCap r = Ok e) rows evs ->
  forall res group p,
    forRows spareCap rows res group = Panic p -> p = IndexOutOfRange 0 0.
Proof.
  induction 1 as [|r e rows evs Hparse Hrest IH]; intros res group p Hloop.
  - discriminate Hloop.
  - cbn [forRows] in Hloop. rewrite Hparse in Hloop. cbn [bind] in Hloop.
    destruct (addEvent res group e) as [st1|p1] eqn:Hadd.
    + cbn [bind] in Hloop. now apply (IH _ _ _ Hloop).
    + cbn [bind] in Hloop. injection Hloop as <-.
      now apply addEvent_Panic in Hadd.
Qed.

Lemma follow_prefix (evs1 evs2 : list Event) :
  continuationsFollowStart (evs1 ++ evs2) -> continuationsFollowStart evs1.
Proof.
  intros Hfollow i c Hnth Hcont.
  assert (Hi : (i < List.length evs1)%nat).
  { apply nth_error_Some. rewrite Hnth. discriminate. }
  destruct (Hfollow i c) as (j & s & Hlt & Hj & Hs).
  - rewrite nth_error_app1 by exact Hi. exact Hnth.
  - exact Hcont.
  - exists j, s. repeat split; [exact Hlt | | exact Hs].
    rewrite nth_error_app1 in Hj by lia. exact Hj.
Qed.

(** C7: when every row parses and every continuation row has a group-start
    row before it, the grouping ends without a fault, and at each
    continuation row the accumulator is not empty, so [group[0]] is in
    bounds.  When some continuation row has no group-start row before it the
    grouping faults at [group[0]], with the index-out-of-range panic. *)
Theorem group_first_in_bounds (rows : list Node) (evs : list Event) :
  Forall2 (fun r e => parseEvent spareCap r = Ok e) rows evs ->
  (continuationsFollowStart evs ->
   (exists groups, groupRows spareCap rows = Ok groups)
   /\ forall rows1 row rows2 c,
        rows = rows1 ++ row :: rows2 ->
        parseEvent spareCap row = Ok c -> continues c ->
        exists res group first,
          forRows spareCap rows1 [] [] = Ok (res, group)
          /\ index group 0 = Ok first)
  /\ (~ continuationsFollowStart evs ->
      groupRows spareCap rows = Panic (IndexOutOfRange 0 0)).
Proof.
  intros Hparsed. split.
  - intros Hfollow. split.
    + destruct (forRows_follow _ _ Hparsed Hfollow []) as (st & Hloop).
      unfold groupRows. rewrite Hloop. cbn [bind]. eauto.
    + intros rows1 row rows2 c -> Hrow Hcont.
      apply Forall2_app_inv_l in Hparsed
        as (evs1 & evs2 & Hparsed1 & Hparsed2 & ->).
      inversion Hparsed2 as [|row' c' rows2' evs2' Hrow' _]; subst.
      assert (Hc : c' = c) by congruence. subst c'.
      pose proof (follow_prefix _ _ Hfollow) as Hfollow1.
      destruct (forRows_follow _ _ Hparsed1 Hfollow1 []) as ([res group] & Hloop).
      destruct (Hfollow (List.length evs1) c) as (j & s & Hlt & Hj & Hs).
      { rewrite nth_error_app2 by lia. now rewrite Nat.sub_diag. }
      { exact Hcont. }
      rewrite nth_error_app1 in Hj by exact Hlt.
      apply nth_error_In in Hj.
      pose proof (forRows_started _ _ Hparsed1 s Hj Hs _ _ _ Hloop) as Hopen.
      cbn [snd] in Hopen.
      destruct group as [|first g]; [contradiction|].
      exists res, (first :: g), first. split; [exact Hloop | reflexivity].
  - intros Hnot. unfold groupRows.
    destruct (forRows spareCap rows [] []) as [st|p] eqn:Hloop.
    + exfalso. apply Hnot. now apply (forRows_Ok_follow _ _ Hparsed _ _ Hloop).
    + cbn [bind]. f_equal. now apply (forRows_Panic _ _ Hparsed _ _ _ Hloop).
Qed.

End ParserProperties.

Lemma parseEvent_unchecked_indexing_witness :
  parseEvent Sample.spareCap Sample.short = Panic (IndexOutOfRange 3 3)
  /\ parseEvent Sample.spareCap Sample.noTime = Panic (IndexOutOfRange 4 4).
Proof.
  split.
  - apply (proj1 (parseEvent_unchecked_indexing Sample.spareCap Sample.short)).
    vm_compute. lia.
  - apply (proj2 (parseEvent_unchecked_indexing Sample.spareCap Sample.noTime)
             "Hladík").
    + vm_compute. reflexivity.
    + discriminate.
    + vm_compute. lia.
Defined.

Lemma empty_teacher_row_is_skipped_witness :
  parseEvent Sample.spareCap Sample.decorative = Ok emptyEvent
  /\ groupRows Sample.spareCap
       ([Sample.lecture] ++ Sample.decorative :: [Sample.lecture2])
     = groupRows Sample.spareCap ([Sample.lecture] ++ [Sample.lecture2]).
Proof.
  destruct (empty_teacher_row_is_skipped Sample.spareCap Sample.decorative)
    as (Hparse & _ & Hgroups).
  - vm_compute. reflexivity.
  - split; [exact Hparse | apply Hgroups].
Defined.

Lemma TimeTo_is_TimeFrom_plus_minutes_witness :
  exists d parity,
    parseDurationAndWeekParity "240 Liché týdny (sudé kalendářní)"
    = Ok (d, parity)
    /\ (minInt64 <= d * Minute <= maxInt64 ->
        instant (TimeTo (mkEvent "P" "" "Fiala" 3 (mkTime (-31578000) 0)
                           (mkTime (-31563600) 0) 1))
        = instant (TimeFrom (mkEvent "P" "" "Fiala" 3 (mkTime (-31578000) 0)
                               (mkTime (-31563600) 0) 1))
          + d * Minute).
Proof.
  apply (proj1 (TimeTo_is_TimeFrom_plus_minutes Sample.spareCap)
           (mkEvent "P" "" "Fiala" 0 zeroTime zeroTime 0) "Čt 12:20"
           "240 Liché týdny (sudé kalendářní)").
  vm_compute. reflexivity.
Defined.

Example longLecture_event :
  addEventScheduling Sample.spareCap emptyEvent "Po 08:00" "153722868"
  = Ok (mkEvent "" "" "" 0 (mkTime (-31593600) 0)
          (mkTime (-9254965594) 290448384) 0).
Proof. vm_compute. reflexivity. Qed.

Example longLecture_minutes :
  parseDurationAndWeekParity "153722868" = Ok (153722868, 0).
Proof. vm_compute. reflexivity. Qed.

(** The claim C6 as the spec states it, for every decoded minute count, fails:
    153722868 minutes do not fit a [time.Duration], the product wraps around,
    and the end time is about 292 years before the start time. *)
Lemma TimeTo_wraps_around :
  ~ (forall spareCap e daytime dur e' d parity,
       addEventScheduling spareCap e daytime dur = Ok e' ->
       parseDurationAndWeekParity dur = Ok (d, parity) ->
       instant (TimeTo e') = instant (TimeFrom e') + d * Minute).
Proof.
  intros Hclaim.
  specialize (Hclaim _ _ _ _ _ _ _ longLecture_event longLecture_minutes).
  vm_compute in Hclaim. discriminate Hclaim.
Qed.

Lemma run_is_one_group_witness :
  groupRows Sample.spareCap
    ([Sample.seminar]
     ++ Sample.lecture :: [Sample.decorative; Sample.lecture2]
     ++ [Sample.seminar])
  = Ok ([[Sample.seminarEvent]]
        ++ [Sample.lectureEvent
            :: map (backfill Sample.lectureEvent)
                 (filter (fun e => negb (Event_eqb e emptyEvent))
                    [emptyEvent; Sample.lecture2Event])]
        ++ [[Sample.seminarEvent]])
  /\ Forall (fun m => Name m = "Lineární algebra 1" /\ Teacher m = "Hladík")
       (Sample.lectureEvent
        :: map (backfill Sample.lectureEvent)
             (filter (fun e => negb (Event_eqb e emptyEvent))
                [emptyEvent; Sample.lecture2Event]))
  /\ Teacher Sample.lectureEvent <> "".
Proof.
  apply (run_is_one_group Sample.spareCap [Sample.seminar] Sample.lecture
           [Sample.decorative; Sample.lecture2] [Sample.seminar]
           Sample.lectureEvent [emptyEvent; Sample.lecture2Event]
           [[Sample.seminarEvent]] [[Sample.seminarEvent]]).
  - vm_compute. reflexivity.
  - vm_compute. reflexivity.
  - discriminate.
  - repeat (apply Forall2_cons;
              [split; [vm_compute; reflexivity | reflexivity]|]).
    apply Forall2_nil.
  - right. exists Sample.seminar, [], Sample.seminarEvent.
    split; [reflexivity|]. split; [vm_compute; reflexivity | discriminate].
  - vm_compute. reflexivity.
Defined.

Lemma sample_follows :
  continuationsFollowStart
    [Sample.lectureEvent; emptyEvent; Sample.lecture2Event;
     Sample.seminarEvent].
Proof.
  intros i c Hnth [Hne Hname].
  destruct i as [|[|[|[|i]]]]; cbn [nth_error] in Hnth;
    try (injection Hnth as <-); try discriminate Hname.
  - now contradiction Hne.
  - exists 0%nat, Sample.lectureEvent.
    repeat split; [lia | discriminate].
  - destruct i; discriminate Hnth.
Defined.

Lemma lone_continuation_violates :
  ~ continuationsFollowStart [Sample.lecture2Event].
Proof.
  intros Hfollow.
  destruct (Hfollow 0%nat Sample.lecture2Event eq_refl) as (j & _ & Hlt & _).
  - split; [discriminate | reflexivity].
  - inversion Hlt.
Defined.

Lemma group_first_in_bounds_witness :
  (exists groups,
     groupRows Sample.spareCap
       [Sample.lecture; Sample.decorative; Sample.lecture2; Sample.seminar]
     = Ok groups)
  /\ groupRows Sample.spareCap [Sample.lecture2] = Panic (IndexOutOfRange 0 0).
Proof.
  split.
  - apply (group_first_in_bounds Sample.spareCap
             [Sample.lecture; Sample.decorative; Sample.lecture2;
              Sample.seminar]
             [Sample.lectureEvent; emptyEvent; Sample.lecture2Event;
              Sample.seminarEvent]).
    + repeat (apply Forall2_cons; [vm_compute; reflexivity|]).
      apply Forall2_nil.
    + exact sample_follows.
  - apply (group_first_in_bounds Sample.spareCap [Sample.lecture2]
             [Sample.lecture2Event]).
    + apply Forall2_cons; [vm_compute; reflexivity | apply Forall2_nil].
    + exact lone_continuation_violates.
Defined.

(** ** The retrieval *)

Lemma atom_eqb_eq (a b : atom.Atom) : atom.eqb a b = true <-> a = b.
Proof.
  destruct a, b; simpl; split; intros H;
    try reflexivity; try discriminate H.
  - apply N.eqb_eq in H. now subst.
  - injection H as ->. apply N.eqb_refl.
Qed.

Lemma flat_map_nil {A B : Type} (f : A -> list B) (l : list A) :
  Forall (fun a => f a = []) l -> flat_map f l = [].
Proof.
  induction 1 as [|a l Ha _ IH]; cbn [flat_map].
  - reflexivity.
  - now rewrite Ha, IH.
Qed.

Lemma contexts_child (anc : list Node) (t : NodeType) (a : atom.Atom)
  (d : string) (attrs : list Attribute) (cs : list Node) (child : Node)
  (c : list Node * Node) :
  In child cs ->
  In c (contexts (mkNode t a d attrs cs :: anc) child) ->
  In c (contexts anc (mkNode t a d attrs cs)).
Proof.
  intros Hchild Hc. cbn [contexts]. right.
  apply in_flat_map. exists child. split; assumption.
Qed.

(** Where no node matches, [scrape.FindAll] finds nothing. *)
Lemma FindAllIn_none (matcher : Matcher) (n : Node) :
  forall anc,
    (forall a m, In (a, m) (contexts anc n) -> matcher a m = false) ->
    FindAllIn matcher anc n = [].
Proof.
  induction n as [t a d attrs cs IH] using Node_tree_ind. intros anc Hnone.
  cbn [FindAllIn].
  rewrite (Hnone anc (mkNode t a d attrs cs)) by (cbn [contexts]; now left).
  apply flat_map_nil. rewrite Forall_forall in IH |- *.
  intros child Hchild. apply IH; [exact Hchild|].
  intros a' m Hc. apply Hnone. now apply (contexts_child _ _ _ _ _ _ child).
Qed.

(** Where no node matches, [scrape.Find] finds nothing. *)
Lemma FindIn_none (matcher : Matcher) (n : Node) :
  forall anc,
    (forall a m, In (a, m) (contexts anc n) -> matcher a m = false) ->
    FindIn matcher anc n = None.
Proof.
  induction n as [t a d attrs cs IH] using Node_tree_ind. intros anc Hnone.
  cbn [FindIn].
  rewrite (Hnone anc (mkNode t a d attrs cs)) by (cbn [contexts]; now left).
  assert (Hchildren : forall child a' m,
             In child cs ->
             In (a', m) (contexts (mkNode t a d attrs cs :: anc) child) ->
             matcher a' m = false).
  { intros child a' m Hchild Hc. apply Hnone.
    now apply (contexts_child _ _ _ _ _ _ child). }
  clear Hnone. revert Hchildren.
  generalize (mkNode t a d attrs cs :: anc) as ancs. intros ancs Hchildren.
  induction IH as [|child rest Hfirst _ IHrest].
  - reflexivity.
  - rewrite Hfirst.
    + apply IHrest. intros child' a' m Hin. apply Hchildren. now right.
    + intros a' m. apply Hchildren. now left.
Qed.

(** A document can be searched for a matching node by evaluation. *)
Lemma no_match_check (matcher : Matcher) (root : Node) :
  forallb (fun c => negb (matcher (fst c) (snd c))) (contexts [] root) = true ->
  forall anc n, In (anc, n) (contexts [] root) -> matcher anc n = false.
Proof.
  intros Hall anc n Hin.
  rewrite forallb_forall in Hall. apply Hall in Hin. cbn [fst snd] in Hin.
  now apply negb_true_iff.
Qed.

Lemma no_link_check (root : Node) :
  forallb (fun c => negb (linkMatcher (fst c) (snd c))) (contexts [] root)
  = true ->
  forall anc n, In (anc, n) (contexts [] root) ->
    DataAtom n = atom.A -> Text n <> scheduleLinkText.
Proof.
  intros Hall anc n Hin Hatom Htext.
  pose proof (no_match_check _ _ Hall anc n Hin) as Hno.
  unfold linkMatcher in Hno. rewrite Hatom, Htext in Hno.
  cbn [atom.eqb] in Hno. rewrite String.eqb_refl in Hno. discriminate Hno.
Qed.

Section RetrievalProperties.

Variable spareCap : nat -> nat.
Variable html_Parse : string -> error + Node.
Variable server : string -> error + string.
Variable URL : Type.
Variable url_Parse : string -> error + URL.
Variable url_Resolve : URL -> URL -> string.

Local Abbreviation retrieve :=
  (GetCourseEvents spareCap html_Parse server URL url_Parse url_Resolve).

(** C5: a schedule page in which no node is a row of the event table gives
    the empty sequence of groups: [parseCourseEvents] returns it without a
    fault, and the retrieval that reaches such a page returns it with a nil
    error. *)
Theorem no_rows_empty_result :
  (forall body root,
     html_Parse (content body) = inr root ->
     (forall anc n, In (anc, n) (contexts [] root) -> rowMatcher anc n = false) ->
     parseCourseEvents spareCap html_Parse body = Ok [])
  /\ (forall courseCode w bytes root link baseUrl relativeUrl bytes2 root2,
        server (Sprintf sisUrl courseCode) = inr bytes ->
        html_Parse bytes = inr root ->
        Find root linkMatcher = Some link ->
        url_Parse sisUrl = inr baseUrl ->
        url_Parse (scrapeAttr link "href") = inr relativeUrl ->
        server (url_Resolve baseUrl relativeUrl) = inr bytes2 ->
        html_Parse bytes2 = inr root2 ->
        (forall anc n,
           In (anc, n) (contexts [] root2) -> rowMatcher anc n = false) ->
        fst (retrieve courseCode w) = Ok ([], None)).
Proof.
  assert (Hparse : forall body root,
             html_Parse (content body) = inr root ->
             (forall anc n,
                In (anc, n) (contexts [] root) -> rowMatcher anc n = false) ->
             parseCourseEvents spareCap html_Parse body = Ok []).
  { intros body root Hroot Hnone. unfold parseCourseEvents. rewrite Hroot.
    unfold FindAll. rewrite FindAllIn_none; [reflexivity | exact Hnone]. }
  split; [exact Hparse|].
  intros courseCode w bytes root link baseUrl relativeUrl bytes2 root2
    Hget Hroot Hlink Hbase Hrel Hget2 Hroot2 Hnone.
  unfold GetCourseEvents, http_Get.
  rewrite Hget. unfold getRelativeScheduleUrl. cbn [content].
  rewrite Hroot, Hlink. unfold getAbsoluteUrl. rewrite Hbase, Hrel, Hget2.
  rewrite (Hparse _ root2); [reflexivity | exact Hroot2 | exact Hnone].
Qed.

(** C8: when no [a] element of the landing page has the text [Rozvrh], the
    retrieval returns the schedule-link-not-found error, and the request for
    the landing page is the only one it has made. *)
Theorem no_schedule_link_no_second_fetch
  (courseCode : string) (w : World) (bytes : string) (root : Node) :
  server (Sprintf sisUrl courseCode) = inr bytes ->
  html_Parse bytes = inr root ->
  (forall anc n,
     In (anc, n) (contexts [] root) ->
     DataAtom n = atom.A -> Text n <> scheduleLinkText) ->
  fst (retrieve courseCode w) = Ok ([], Some errNoScheduleUrl)
  /\ requests (snd (retrieve courseCode w))
     = requests w ++ [Sprintf sisUrl courseCode].
Proof.
  intros Hget Hroot Hnone.
  unfold GetCourseEvents, http_Get.
  rewrite Hget. unfold getRelativeScheduleUrl. cbn [content]. rewrite Hroot.
  unfold Find. rewrite FindIn_none.
  - split; reflexivity.
  - intros anc n Hin. unfold linkMatcher.
    destruct (atom.eqb (DataAtom n) atom.A) eqn:Eatom; [|reflexivity].
    apply atom_eqb_eq in Eatom.
    destruct (String.eqb_spec (Text n) scheduleLinkText) as [Htext|_];
      [|reflexivity].
    exfalso. now apply (Hnone anc n).
Qed.

Lemma http_Get_world (url : string) (w : World) :
  requests (snd (http_Get server url w)) = requests w ++ [url]
  /\ openBodies (snd (http_Get server url w))
     = openBodies w
       ++ (if answered server url then [List.length (requests w)] else []).
Proof.
  unfold http_Get, answered. destruct (server url) as [err|bytes].
  - cbn [snd requests openBodies]. now rewrite app_nil_r.
  - split; reflexivity.
Qed.

(** The world after the retrieval is the world after its one or two GETs. *)
Lemma retrieve_world (courseCode : string) (w : World) :
  let w1 := snd (http_Get server (Sprintf sisUrl courseCode) w) in
  snd (retrieve courseCode w) = w1
  \/ exists url, snd (retrieve courseCode w) = snd (http_Get server url w1).
Proof.
  unfold GetCourseEvents.
  destruct (http_Get server (Sprintf sisUrl courseCode) w) as [got w1].
  cbn [snd]. destruct got as [err|body]; [now left|].
  destruct (getRelativeScheduleUrl html_Parse body) as [[rel [err|]]|p];
    try (now left).
  destruct (getAbsoluteUrl URL url_Parse url_Resolve sisUrl rel)
    as [scheduleUrl|p]; [|now left].
  right. exists scheduleUrl.
  destruct (http_Get server scheduleUrl w1) as [got2 w2]. cbn [snd].
  destruct got2 as [err|body2]; [reflexivity|].
  destruct (parseCourseEvents spareCap html_Parse body2); reflexivity.
Qed.

(** C9, amended: the retrieval closes no response body.  However it ends, by
    a return, by an error or by a panic, the bodies that were open before are
    still open, and so is the body of every request it made that was
    answered. *)
Theorem bodies_are_left_open (courseCode : string) (w : World) :
  let w' := snd (retrieve courseCode w) in
  (forall h, In h (openBodies w) -> In h (openBodies w'))
  /\ (forall i url,
        nth_error (requests w') i = Some url ->
        (List.length (requests w) <= i)%nat ->
        answered server url = true ->
        In i (openBodies w')).
Proof.
  set (url1 := Sprintf sisUrl courseCode).
  destruct (http_Get_world url1 w) as [Hreq1 Hopen1].
  assert (Hfirst : forall i url,
             nth_error (requests w ++ [url1]) i = Some url ->
             (List.length (requests w) <= i)%nat ->
             i = List.length (requests w) /\ url = url1).
  { intros i url Hnth Hle.
    rewrite nth_error_app2 in Hnth by exact Hle.
    destruct (i - List.length (requests w))%nat as [|k] eqn:Ek.
    - cbn [nth_error] in Hnth. split; [lia | congruence].
    - destruct k; discriminate Hnth. }
  destruct (retrieve_world courseCode w) as [Hw|[url2 Hw]]; cbn zeta;
    fold url1 in Hw; rewrite Hw.
  - rewrite Hreq1, Hopen1. split.
    + intros h Hin. apply in_or_app. now left.
    + intros i url Hnth Hle Hans.
      destruct (Hfirst i url Hnth Hle) as [-> ->].
      rewrite Hans. apply in_or_app. right. now left.
  - destruct (http_Get_world url2 (snd (http_Get server url1 w)))
      as [Hreq2 Hopen2].
    rewrite Hreq2, Hopen2, Hreq1, Hopen1. split.
    + intros h Hin. apply in_or_app. left. apply in_or_app. now left.
    + intros i url Hnth Hle Hans.
      destruct (Nat.eq_dec i (List.length (requests w ++ [url1]))) as [->|Hne].
      * rewrite nth_error_app2 in Hnth by lia.
        rewrite Nat.sub_diag in Hnth. cbn [nth_error] in Hnth.
        assert (Hurl : url2 = url) by congruence. subst url2.
        rewrite Hans. apply in_or_app. right. now left.
      * assert (Hlt : (i < List.length ((requests w ++ [url1]) ++ [url2]))%nat).
        { apply nth_error_Some. rewrite Hnth. discriminate. }
        rewrite length_app in Hlt. cbn [List.length] in Hlt.
        rewrite nth_error_app1 in Hnth by lia.
        destruct (Hfirst i url Hnth Hle) as [-> ->].
        rewrite Hans. apply in_or_app. left. apply in_or_app. right. now left.
Qed.

End RetrievalProperties.

Lemma no_rows_empty_result_witness :
  fst (Sample.run Sample.landing Sample.noTable "NMAI057" (mkWorld [] []))
  = Ok ([], None).
Proof.
  apply (proj2 (no_rows_empty_result Sample.spareCap
                  (Sample.html_Parse [("landing", Sample.landing);
                                      ("schedule", Sample.noTable)])
                  Sample.server string Sample.url_Parse Sample.url_Resolve)
           "NMAI057" (mkWorld [] []) "landing" Sample.landing
           (Sample.link "/schedule?x=1" " Rozvrh ") sisUrl "/schedule?x=1"
           "schedule" Sample.noTable);
    try (vm_compute; reflexivity).
  apply no_match_check. vm_compute. reflexivity.
Defined.

Lemma no_schedule_link_no_second_fetch_witness :
  fst (Sample.run Sample.landingNoLink Sample.schedule "NMAI057"
         (mkWorld [] []))
  = Ok ([], Some errNoScheduleUrl)
  /\ requests (snd (Sample.run Sample.landingNoLink Sample.schedule "NMAI057"
                      (mkWorld [] [])))
     = requests (mkWorld [] []) ++ [Sprintf sisUrl "NMAI057"].
Proof.
  apply (no_schedule_link_no_second_fetch Sample.spareCap
           (Sample.html_Parse [("landing", Sample.landingNoLink);
                               ("schedule", Sample.schedule)])
           Sample.server string Sample.url_Parse Sample.url_Resolve
           "NMAI057" (mkWorld [] []) "landing" Sample.landingNoLink).
  - vm_compute. reflexivity.
  - vm_compute. reflexivity.
  - apply no_link_check. vm_compute. reflexivity.
Defined.

Lemma bodies_are_left_open_witness :
  In 1%nat
    (openBodies
       (snd (Sample.run Sample.landing Sample.schedule "NMAI057"
               (mkWorld [] [])))).
Proof.
  apply (proj2 (bodies_are_left_open Sample.spareCap
                  (Sample.html_Parse [("landing", Sample.landing);
                                      ("schedule", Sample.schedule)])
                  Sample.server string Sample.url_Parse Sample.url_Resolve
                  "NMAI057" (mkWorld [] []))
           1%nat Sample.scheduleUrl).
  - vm_compute. reflexivity.
  - cbn [requests List.length]. lia.
  - vm_compute. reflexivity.
Defined.

(** The claim C9 as the spec states it fails: the retrieval of the sample
    course returns with both response bodies open, none of which was open
    before. *)
Lemma bodies_not_closed :
  ~ (forall spareCap html_Parse server URL url_Parse url_Resolve courseCode w h,
       In h (openBodies
               (snd (GetCourseEvents spareCap html_Parse server URL url_Parse
                       url_Resolve courseCode w))) ->
       In h (openBodies w)).
Proof.
  intros Hclaim.
  assert (Hopen : openBodies
                    (snd (Sample.run Sample.landing Sample.schedule "NMAI057"
                            (mkWorld [] [])))
                  = [0%nat; 1%nat]) by (vm_compute; reflexivity).
  apply (Hclaim Sample.spareCap
           (Sample.html_Parse [("landing", Sample.landing);
                               ("schedule", Sample.schedule)])
           Sample.server string Sample.url_Parse Sample.url_Resolve
           "NMAI057" (mkWorld [] []) 0%nat).
  unfold Sample.run in Hopen. rewrite Hopen. now left.
Qed.

(** * Further properties of the decoders *)

Lemma parseDayFrom_Ok (ds : list string) (i : Z) (day : string) (j : Z) :
  parseDayFrom ds i day = Ok j ->
  exists k, nth_error ds k = Some day /\ j = i + Z.of_nat k.
Proof.
  revert i. induction ds as [|d ds IH]; intros i H; cbn [parseDayFrom] in H.
  - discriminate H.
  - destruct (String.eqb_spec d day) as [->|_].
    + exists 0%nat. split; [reflexivity|]. injection H as <-. lia.
    + apply IH in H as (k & Hk & ->). exists (S k). split; [exact Hk | lia].
Qed.

(** X1: an index that [parseDay] returns is one of 0 to 4 and is the position
    of the token among the day abbreviations, so two tokens with the same
    index are the same token. *)
Theorem parseDay_index (day other : string) (i : Z) :
  parseDay day = Ok i ->
  0 <= i <= 4
  /\ nth_error days (Z.to_nat i) = Some day
  /\ (parseDay other = Ok i -> other = day).
Proof.
  unfold parseDay. intros H.
  apply parseDayFrom_Ok in H as (k & Hk & ->).
  assert (Hlt : (k < 5)%nat).
  { change 5%nat with (List.length days). apply nth_error_Some.
    rewrite Hk. discriminate. }
  rewrite Z.add_0_l, Nat2Z.id. repeat split; [lia | lia | exact Hk |].
  intros Hother. apply parseDayFrom_Ok in Hother as (k' & Hk' & Heq).
  assert (Hsame : k' = k) by lia. subst k'. congruence.
Qed.

Lemma parseDay_index_witness :
  0 <= 3 <= 4
  /\ nth_error days (Z.to_nat 3) = Some "Čt"
  /\ (parseDay "Čt" = Ok 3 -> "Čt" = "Čt").
Proof.
  apply (parseDay_index "Čt" "Čt" 3). vm_compute. reflexivity.
Defined.

Lemma fieldsFrom_blank (rs : list (rune * string)) :
  Forall (fun rb => IsSpace (fst rb) = true) rs -> fieldsFrom rs None = [].
Proof.
  induction 1 as [|[r bytes] rs Hspace _ IH]; cbn [fieldsFrom].
  - reflexivity.
  - cbn [fst] in Hspace. rewrite Hspace. exact IH.
Qed.

(** X2: a duration token that is empty or holds white space only has no first
    field, and [parseDurationAndWeekParity] faults on [w[0]]. *)
Theorem parseDurationAndWeekParity_blank (dur : string) :
  Forall (fun rb => IsSpace (fst rb) = true) (runesOf dur) ->
  parseDurationAndWeekParity dur = Panic (IndexOutOfRange 0 0).
Proof.
  intros Hblank. unfold parseDurationAndWeekParity, Fields.
  rewrite (fieldsFrom_blank _ Hblank). reflexivity.
Qed.

Lemma parseDurationAndWeekParity_blank_witness :
  parseDurationAndWeekParity (" " ++ Sample.newline)
  = Panic (IndexOutOfRange 0 0).
Proof.
  apply parseDurationAndWeekParity_blank.
  repeat (apply Forall_cons; [vm_compute; reflexivity|]). apply Forall_nil.
Defined.

Lemma parseDigits_grows (s : string) (n z : Z) :
  0 <= n <= maxUint64 -> parseDigits s n = inr z -> n <= z <= maxUint64.
Proof.
  revert n. induction s as [|c s IH]; intros n Hn H; cbn [parseDigits] in H.
  - injection H as <-. lia.
  - destruct (between 48 (byte_of c) 57) eqn:Edigit; [|discriminate H].
    destruct (Z.ltb_spec maxUint64 (n * 10 + (byte_of c - 48))) as [_|Hfit];
      [discriminate H|].
    unfold between in Edigit. apply andb_true_iff in Edigit as [Elo Ehi].
    apply Z.leb_le in Elo, Ehi.
    apply IH in H; lia.
Qed.

Lemma Atoi_range (s : string) (z : Z) :
  Atoi s = inr z -> minInt64 <= z <= maxInt64.
Proof.
  assert (Hsigned : forall neg digits,
    match digits with
    | EmptyString => inl ErrSyntax
    | _ =>
      match parseDigits digits 0 with
      | inl e => inl e
      | inr un =>
        if negb neg && (maxInt64 <? un) then inl ErrRange
        else if neg && (maxInt64 + 1 <? un) then inl ErrRange
        else inr (if neg then - un else un)
      end
    end = inr z -> minInt64 <= z <= maxInt64).
  { intros neg digits H.
    assert (H' : match parseDigits digits 0 with
                 | inl e => inl e
                 | inr un =>
                   if negb neg && (maxInt64 <? un) then inl ErrRange
                   else if neg && (maxInt64 + 1 <? un) then inl ErrRange
                   else inr (if neg then - un else un)
                 end = inr z)
      by (destruct digits; [discriminate H | exact H]).
    clear H. destruct (parseDigits digits 0) as [e|un] eqn:Edigits;
      [discriminate H'|].
    apply parseDigits_grows in Edigits; [|unfold maxUint64; lia].
    unfold minInt64, maxInt64 in *.
    destruct neg; cbn [negb andb] in H'.
    - destruct (Z.ltb_spec (2 ^ 63 - 1 + 1) un); [discriminate H'|].
      injection H' as <-. lia.
    - destruct (Z.ltb_spec (2 ^ 63 - 1) un); [discriminate H'|].
      injection H' as <-. lia. }
  unfold Atoi. cbv zeta. destruct s as [|c rest]; [discriminate|].
  destruct (byte_of c =? 43); [exact (Hsigned false rest)|].
  destruct (byte_of c =? 45);
    [exact (Hsigned true rest) | exact (Hsigned false (String c rest))].
Qed.

(** X3: the minute count that [parseDurationAndWeekParity] returns is an
    [int] (it may be negative: the sign is not checked), the parity is 0, 1 or
    2, and it is 0 exactly when the token has a single field. *)
Theorem parseDurationAndWeekParity_range (dur : string) (d parity : Z) :
  parseDurationAndWeekParity dur = Ok (d, parity) ->
  minInt64 <= d <= maxInt64
  /\ (parity = 0 \/ parity = 1 \/ parity = 2)
  /\ (parity = 0 <-> List.length (Fields dur) = 1%nat).
Proof.
  unfold parseDurationAndWeekParity. intros H.
  apply bind_Ok in H as (w0 & Hw0 & H).
  destruct (Atoi w0) as [err|z] eqn:Eatoi; [discriminate H|].
  apply Atoi_range in Eatoi.
  destruct (Fields dur) as [|first [|second more]].
  - discriminate Hw0.
  - cbn [nth_error List.length] in H.
    destruct (Z.ltb_spec 1 (Z.of_nat 1)) as [Hlt|_]; [lia|].
    assert (Hd : d = z) by congruence.
    assert (Hp : parity = 0) by congruence. subst z parity.
    split; [exact Eatoi|]. split; [now left|]. split; reflexivity.
  - cbn [nth_error List.length] in H.
    destruct (Z.ltb_spec 1 (Z.of_nat (S (S (List.length more))))) as [_|Hle];
      [|lia].
    assert (Hd : d = z) by congruence. subst z. split; [exact Eatoi|].
    destruct (String.eqb second oddWeeks);
      (assert (Hp : parity = 1 \/ parity = 2) by (injection H; auto));
      (split; [tauto|]); cbn [List.length];
      (split; [intros ->; destruct Hp; discriminate | intros Hlen; discriminate Hlen]).
Qed.

Lemma parseDurationAndWeekParity_range_witness :
  minInt64 <= -90 <= maxInt64
  /\ (2 = 0 \/ 2 = 1 \/ 2 = 2)
  /\ (2 = 0 <-> List.length (Fields "-90 lichý") = 1%nat).
Proof.
  apply (parseDurationAndWeekParity_range "-90 lichý" (-90) 2).
  vm_compute. reflexivity.
Defined.

(** * Further properties of the row parser *)

Lemma ParseHourMinute_Some (value : string) (t : Time) :
  ParseHourMinute value = Some t ->
  exists h m,
    0 <= h < 24 /\ 0 <= m < 60 /\ t = mkTime (yearZero + h * 3600 + m * 60) 0.
Proof.
  unfold ParseHourMinute. intros H.
  destruct (getnum value false) as [[hour v1]|]; [|discriminate H].
  destruct ((hour <? 0) || (24 <=? hour)) eqn:Ehour; [discriminate H|].
  destruct v1 as [|c v2]; [discriminate H|].
  destruct (negb (byte_of c =? 58)); [discriminate H|].
  destruct (getnum v2 true) as [[min v3]|]; [|discriminate H].
  destruct ((min <? 0) || (60 <=? min)) eqn:Emin; [discriminate H|].
  destruct v3; [|discriminate H].
  apply orb_false_iff in Ehour, Emin.
  destruct Ehour as [Eh1 Eh2], Emin as [Em1 Em2].
  apply Z.ltb_ge in Eh1, Em1. apply Z.leb_gt in Eh2, Em2.
  exists hour, min. repeat split; try lia. congruence.
Qed.

Lemma Clock_hour_minute (h m : Z) :
  0 <= h < 24 -> 0 <= m < 60 ->
  Clock (mkTime (yearZero + h * 3600 + m * 60) 0) = (h, m, 0).
Proof.
  intros Hh Hm. unfold Clock, yearZero. cbn [sec].
  replace ((- (366 * 86400) + h * 3600 + m * 60) mod 86400)
    with (h * 3600 + m * 60)
    by (apply (Z.mod_unique _ _ (-366)); lia).
  replace ((h * 3600 + m * 60) / 3600) with h
    by (apply (Z.div_unique _ _ _ (m * 60)); lia).
  replace ((h * 3600 + m * 60) mod 3600) with (m * 60)
    by (apply (Z.mod_unique _ _ h); lia).
  replace (m * 60 / 60) with m by (symmetry; apply Z.div_mul; lia).
  replace ((h * 3600 + m * 60) mod 60) with 0
    by (apply (Z.mod_unique _ _ (h * 60 + m)); lia).
  reflexivity.
Qed.

Lemma parseDay_bounds (day : string) (i : Z) : parseDay day = Ok i -> 0 <= i <= 4.
Proof.
  unfold parseDay. intros H. apply parseDayFrom_Ok in H as (k & Hk & ->).
  assert (Hlt : (k < List.length days)%nat)
    by (apply nth_error_Some; rewrite Hk; discriminate).
  cbn [days List.length] in Hlt. lia.
Qed.

Lemma parity_values (dur : string) (d parity : Z) :
  parseDurationAndWeekParity dur = Ok (d, parity) ->
  parity = 0 \/ parity = 1 \/ parity = 2.
Proof.
  unfold parseDurationAndWeekParity. intros H.
  apply bind_Ok in H as (w0 & _ & H).
  destruct (Atoi w0) as [err|z]; [discriminate H|].
  destruct (1 <? Z.of_nat (List.length (Fields dur))).
  - destruct (nth_error (Fields dur) 1) as [w1|].
    + destruct (String.eqb w1 oddWeeks); injection H; auto.
    + injection H; auto.
  - injection H; auto.
Qed.

Lemma sliceFrom_within (a : list rune) (low : nat) :
  (low <= List.length a)%nat -> sliceFrom a low = Ok (skipn low a).
Proof.
  intros H. unfold sliceFrom.
  destruct (Nat.leb_spec low (List.length a)) as [_|Hgt]; [reflexivity | lia].
Qed.

Section RowProperties.

Variable spareCap : nat -> nat.

(** X4: an event that [addEventScheduling] returns keeps the type, name and
    teacher it was given; its day is 0 to 4, its parity 0, 1 or 2, and its
    start is a time of day of January 1 of year 0 with whole minutes. *)
Theorem addEventScheduling_fields (e : Event) (daytime dur : string)
  (e' : Event) :
  addEventScheduling spareCap e daytime dur = Ok e' ->
  (Type_ e' = Type_ e /\ Name e' = Name e /\ Teacher e' = Teacher e)
  /\ 0 <= Day e' <= 4
  /\ (WeekParity e' = 0 \/ WeekParity e' = 1 \/ WeekParity e' = 2)
  /\ exists h m,
       0 <= h < 24 /\ 0 <= m < 60
       /\ TimeFrom e' = mkTime (yearZero + h * 3600 + m * 60) 0
       /\ Clock (TimeFrom e') = (h, m, 0).
Proof.
  unfold addEventScheduling. intros H.
  apply bind_Ok in H as (dayRunes & _ & H).
  apply bind_Ok in H as (day & Hday & H).
  apply bind_Ok in H as (timeRunes & _ & H).
  destruct (ParseHourMinute (ofRunes timeRunes)) as [timeFrom|] eqn:Etime;
    [|discriminate H].
  apply bind_Ok in H as ([d parity] & Hdur & H).
  assert (He : e' = withScheduling e day timeFrom (Add timeFrom (minutes d))
                      parity) by congruence.
  subst e'. cbn [withScheduling Type_ Name Teacher Day WeekParity TimeFrom].
  split; [repeat split|]. split; [now apply (parseDay_bounds _ _ Hday)|].
  split; [now apply (parity_values dur d)|].
  apply ParseHourMinute_Some in Etime as (h & m & Hh & Hm & ->).
  exists h, m. repeat split; try lia. now apply Clock_hour_minute.
Qed.

(** X5: the character between the day and the time is not read: two cells
    of at least three runes that agree on the first two runes and on the runes
    from the fourth on give the same event, or the same fault. *)
Theorem addEventScheduling_separator (e : Event) (daytime daytime' dur : string) :
  (3 <= List.length (toRunes daytime))%nat ->
  (3 <= List.length (toRunes daytime'))%nat ->
  firstn 2 (toRunes daytime) = firstn 2 (toRunes daytime') ->
  skipn 3 (toRunes daytime) = skipn 3 (toRunes daytime') ->
  addEventScheduling spareCap e daytime dur
  = addEventScheduling spareCap e daytime' dur.
Proof.
  intros Hlen Hlen' Hday Htime. unfold addEventScheduling.
  rewrite !sliceTo_within by lia. rewrite !sliceFrom_within by lia.
  now rewrite Hday, Htime.
Qed.

Lemma not_a_day (s : string) : ~ In (s ++ String zero "")%string days.
Proof.
  unfold days.
  destruct s as [|c0 [|c1 [|c2 [|c3 s]]]]; cbn [String.append In];
    intros [H|[H|[H|[H|[H|[]]]]]]; discriminate H.
Qed.

Lemma encodeRune_zero : encodeRune 0 = String zero "".
Proof. vm_compute. reflexivity. Qed.

(** X6: a day-and-time cell of fewer than three runes always ends in a
    fault, whatever capacity the rune slice has. *)
Theorem addEventScheduling_short (e : Event) (daytime dur : string) :
  (List.length (toRunes daytime) < 3)%nat ->
  exists p, addEventScheduling spareCap e daytime dur = Panic p.
Proof.
  intros Hshort. unfold addEventScheduling.
  set (rs := toRunes daytime) in *. set (spare := spareCap (List.length rs)).
  unfold sliceTo.
  destruct (Nat.leb_spec 2 (List.length rs + spare)) as [Hcap|_];
    [|cbn [bind]; eauto].
  cbn [bind].
  destruct rs as [|r0 [|r1 [|r2 rs]]]; cbn [List.length] in Hshort, Hcap;
    try lia.
  - destruct spare as [|[|spare]]; try lia.
    cbn [app repeat firstn ofRunes fold_right].
    rewrite encodeRune_zero. unfold parseDay.
    rewrite parseDayFrom_unknown by (apply (not_a_day (String zero ""))).
    cbn [bind]. eauto.
  - destruct spare as [|spare]; try lia.
    cbn [app repeat firstn ofRunes fold_right].
    rewrite encodeRune_zero. unfold parseDay.
    rewrite parseDayFrom_unknown by (apply not_a_day).
    cbn [bind]. eauto.
  - cbn [app firstn].
    destruct (parseDay (ofRunes [r0; r1])) as [day|p]; cbn [bind]; [|eauto].
    unfold sliceFrom. cbn [List.length Nat.leb bind]. eauto.
Qed.

(** X7: [parseEvent] returns the empty event exactly when the teacher cell is
    empty; any other event it returns comes from a row of at least 7 cells and
    has the cells 1, 2 and 3 as its type, name and teacher. *)
Theorem parseEvent_Ok (row : Node) (e : Event) :
  parseEvent spareCap row = Ok e ->
  (e = emptyEvent <-> nth_error (rowCols row) 3 = Some "")
  /\ (e <> emptyEvent ->
      (7 <= List.length (rowCols row))%nat
      /\ nth_error (rowCols row) 1 = Some (Type_ e)
      /\ nth_error (rowCols row) 2 = Some (Name e)
      /\ nth_error (rowCols row) 3 = Some (Teacher e)).
Proof.
  unfold parseEvent.
  destruct (rowCols row) as [|c0 [|c1 [|c2 [|c3 cols]]]]; try discriminate.
  cbn [index nth_error bind Teacher].
  destruct (String.eqb_spec c3 "") as [->|Hteacher].
  - intros H. assert (He : e = emptyEvent) by congruence. subst e.
    split; [split; reflexivity|]. intros Hne. now contradiction Hne.
  - destruct cols as [|c4 [|c5 [|c6 cols]]]; try discriminate.
    cbn [index nth_error bind]. intros H.
    apply addEventScheduling_Ok in H as (day & from & d & parity & _ & _ & ->).
    cbn [withScheduling Type_ Name Teacher].
    assert (Hne : withScheduling (mkEvent c1 c2 c3 0 zeroTime zeroTime 0) day
                    from (Add from (minutes d)) parity <> emptyEvent).
    { intros Heq. apply (f_equal Teacher) in Heq. now apply Hteacher. }
    split.
    + split; [intros Heq; now contradiction Hne|].
      intros Heq. injection Heq as Heq. now contradiction Hteacher.
    + intros _. cbn [List.length]. repeat split. lia.
Qed.

End RowProperties.

Lemma addEventScheduling_fields_witness :
  (Type_ Sample.lecture2Event = "P" /\ Name Sample.lecture2Event = ""
   /\ Teacher Sample.lecture2Event = "Fiala")
  /\ 0 <= Day Sample.lecture2Event <= 4
  /\ (WeekParity Sample.lecture2Event = 0 \/ WeekParity Sample.lecture2Event = 1
      \/ WeekParity Sample.lecture2Event = 2)
  /\ exists h m,
       0 <= h < 24 /\ 0 <= m < 60
       /\ TimeFrom Sample.lecture2Event
          = mkTime (yearZero + h * 3600 + m * 60) 0
       /\ Clock (TimeFrom Sample.lecture2Event) = (h, m, 0).
Proof.
  apply (addEventScheduling_fields Sample.spareCap
           (mkEvent "P" "" "Fiala" 0 zeroTime zeroTime 0) "Čt 12:20"
           "240 Liché týdny (sudé kalendářní)" Sample.lecture2Event).
  vm_compute. reflexivity.
Defined.

Lemma addEventScheduling_separator_witness :
  addEventScheduling Sample.spareCap emptyEvent "Po 08:00" "90"
  = addEventScheduling Sample.spareCap emptyEvent "Po–08:00" "90".
Proof.
  apply addEventScheduling_separator.
  - vm_compute. lia.
  - vm_compute. lia.
  - vm_compute. reflexivity.
  - vm_compute. reflexivity.
Defined.

Lemma addEventScheduling_short_witness :
  exists p, addEventScheduling (fun _ => 0%nat) emptyEvent "Po" "90" = Panic p.
Proof.
  apply addEventScheduling_short. vm_compute. lia.
Defined.

Lemma parseEvent_Ok_witness :
  (Sample.lectureEvent = emptyEvent
   <-> nth_error (rowCols Sample.lecture) 3 = Some "")
  /\ (Sample.lectureEvent <> emptyEvent ->
      (7 <= List.length (rowCols Sample.lecture))%nat
      /\ nth_error (rowCols Sample.lecture) 1 = Some (Type_ Sample.lectureEvent)
      /\ nth_error (rowCols Sample.lecture) 2 = Some (Name Sample.lectureEvent)
      /\ nth_error (rowCols Sample.lecture) 3
         = Some (Teacher Sample.lectureEvent)).
Proof.
  apply (parseEvent_Ok Sample.spareCap). vm_compute. reflexivity.
Defined.

(** * Further properties of the grouping *)

Section GroupingProperties.

Variable spareCap : nat -> nat.

Lemma wellGroup_flush (res : list (list Event)) (group : list Event) :
  Forall wellGroup res -> (group = [] \/ wellGroup group) ->
  Forall wellGroup (flush res group).
Proof.
  intros Hres [->|Hgroup]; [exact Hres|].
  destruct group as [|first g]; [destruct Hgroup|].
  rewrite flush_cons. apply Forall_app. split; [exact Hres|].
  constructor; [exact Hgroup | constructor].
Qed.

(** The loop keeps the groups it has closed, and the one it is filling,
    well formed. *)
Lemma forRows_wellGroup (rows : list Node) :
  forall res group res' group',
    Forall wellGroup res -> (group = [] \/ wellGroup group) ->
    forRows spareCap rows res group = Ok (res', group') ->
    Forall wellGroup res' /\ (group' = [] \/ wellGroup group').
Proof.
  induction rows as [|r rows IH]; intros res group res' group' Hres Hgroup H.
  - cbn [forRows] in H. injection H as <- <-. auto.
  - cbn [forRows] in H. apply bind_Ok in H as (e & Hparse & H).
    apply bind_Ok in H as ([res1 group1] & Hadd & H). cbn [fst snd] in H.
    apply (IH _ _ _ _) in H; [exact H| |];
      destruct (event_cases e) as [->|[Hstart|Hcont]].
    + rewrite addEvent_empty in Hadd. injection Hadd as <- <-. exact Hres.
    + rewrite addEvent_start in Hadd by exact Hstart.
      injection Hadd as <- <-. now apply wellGroup_flush.
    + destruct group as [|first g].
      * rewrite addEvent_continues_nil in Hadd by exact Hcont. discriminate.
      * rewrite addEvent_continues in Hadd by exact Hcont.
        injection Hadd as <- <-. exact Hres.
    + rewrite addEvent_empty in Hadd. injection Hadd as <- <-. exact Hgroup.
    + rewrite addEvent_start in Hadd by exact Hstart.
      injection Hadd as <- <-. right. cbn [wellGroup].
      split; [exact Hstart|]. split; [|constructor].
      now apply (parseEvent_named spareCap r).
    + destruct group as [|first g].
      * rewrite addEvent_continues_nil in Hadd by exact Hcont. discriminate.
      * rewrite addEvent_continues in Hadd by exact Hcont.
        injection Hadd as <- <-. right.
        destruct Hgroup as [Hnil|(Hname & Hteacher & Hmembers)];
          [discriminate Hnil|].
        cbn [app wellGroup]. split; [exact Hname|]. split; [exact Hteacher|].
        apply Forall_app. split; [exact Hmembers|].
        constructor; [split; reflexivity | constructor].
Qed.

(** X8: every group that the grouping returns is well formed: it is not
    empty, its first event has a name and a teacher, and every member carries
    that name and that teacher.  So no event of the result is the empty
    event. *)
Theorem groups_are_wellformed (rows : list Node) (groups : list (list Event)) :
  groupRows spareCap rows = Ok groups ->
  Forall wellGroup groups
  /\ Forall (fun m => Name m <> "" /\ Teacher m <> "" /\ m <> emptyEvent)
       (List.concat groups).
Proof.
  unfold groupRows. intros H.
  apply bind_Ok in H as ([res group] & Hloop & H). cbn [fst snd] in H.
  injection H as <-.
  apply forRows_wellGroup in Hloop as [Hres Hgroup]; [|constructor | now left].
  pose proof (wellGroup_flush _ _ Hres Hgroup) as Hall.
  split; [exact Hall|].
  induction Hall as [|g groups Hg _ IH]; cbn [List.concat]; [constructor|].
  apply Forall_app. split; [|exact IH].
  destruct g as [|first members]; [destruct Hg|].
  destruct Hg as (Hname & Hteacher & Hmembers).
  assert (Hmember : forall m,
             Name m = Name first /\ Teacher m = Teacher first ->
             Name m <> "" /\ Teacher m <> "" /\ m <> emptyEvent).
  { intros m [Hn Ht]. rewrite Hn, Ht.
    repeat split; [exact Hname | exact Hteacher |].
    intros ->. cbn [Name emptyEvent] in Hn. now apply Hname. }
  constructor; [now apply Hmember|].
  eapply Forall_impl; [|exact Hmembers]. exact Hmember.
Qed.

Lemma sameSlot_refl (e : Event) : sameSlot e e.
Proof. repeat split. Qed.

Lemma sameSlot_backfill (first e : Event) : sameSlot (backfill first e) e.
Proof. repeat split. Qed.

Lemma concat_flush (res : list (list Event)) (group : list Event) :
  List.concat (flush res group) = List.concat res ++ group.
Proof.
  destruct group as [|e g].
  - rewrite flush_nil. now rewrite app_nil_r.
  - rewrite flush_cons, concat_app. cbn [List.concat]. now rewrite app_nil_r.
Qed.

Lemma length_flush_start (res : list (list Event)) (group : list Event)
  (e : Event) :
  List.length (flush (flush res group) [e])
  = S (List.length (flush res group)).
Proof. rewrite flush_cons, length_app. cbn [List.length]. lia. Qed.

Lemma length_flush_more (res : list (list Event)) (first : Event)
  (g more : list Event) :
  List.length (flush res (first :: g ++ more))
  = List.length (flush res (first :: g)).
Proof. rewrite !flush_cons, !length_app. reflexivity. Qed.

(** What the loop does to the events gathered so far and to the number of
    groups. *)
Lemma forRows_events (rows : list Node) (evs : list Event) :
  Forall2 (fun r e => parseEvent spareCap r = Ok e) rows evs ->
  forall res group res' group' seen,
    forRows spareCap rows res group = Ok (res', group') ->
    Forall2 sameSlot (List.concat res ++ group) seen ->
    Forall2 sameSlot (List.concat res' ++ group') (seen ++ filter nonEmpty evs)
    /\ List.length (flush res' group')
       = (List.length (flush res group) + List.length (filter named evs))%nat.
Proof.
  induction 1 as [|r e rows evs Hparse _ IH];
    intros res group res' group' seen H Hseen.
  - cbn [forRows] in H. injection H as <- <-. cbn [filter List.length].
    rewrite app_nil_r. split; [exact Hseen | lia].
  - cbn [forRows] in H. rewrite Hparse in H. cbn [bind] in H.
    apply bind_Ok in H as ([res1 group1] & Hadd & H). cbn [fst snd] in H.
    cbn [filter]. unfold nonEmpty at 1, named at 1.
    destruct (event_cases e) as [->|[Hstart|Hcont]].
    + rewrite addEvent_empty in Hadd. injection Hadd as <- <-.
      rewrite Event_eqb_refl. cbn [negb Name emptyEvent String.eqb].
      now apply IH.
    + rewrite addEvent_start in Hadd by exact Hstart.
      injection Hadd as <- <-.
      rewrite Event_eqb_neq by (intros ->; now apply Hstart).
      destruct (String.eqb_spec (Name e) "") as [Hname|_]; [contradiction|].
      cbn [negb].
      destruct (IH _ _ _ _ (seen ++ [e]) H) as [Hev Hlen].
      { rewrite concat_flush, <- app_assoc. cbn [app].
        rewrite app_assoc. apply Forall2_app; [exact Hseen|].
        constructor; [apply sameSlot_refl | constructor]. }
      rewrite <- app_assoc in Hev. cbn [app] in Hev. split; [exact Hev|].
      rewrite Hlen, length_flush_start. cbn [List.length]. lia.
    + destruct group as [|first g].
      * rewrite addEvent_continues_nil in Hadd by exact Hcont. discriminate.
      * rewrite addEvent_continues in Hadd by exact Hcont.
        injection Hadd as <- <-. destruct Hcont as [Hne Hname].
        rewrite Event_eqb_neq by exact Hne. rewrite Hname.
        cbn [negb String.eqb].
        destruct (IH _ _ _ _ (seen ++ [e]) H) as [Hev Hlen].
        { rewrite app_comm_cons, app_assoc.
          apply Forall2_app; [exact Hseen|].
          constructor; [apply sameSlot_backfill | constructor]. }
        rewrite <- app_assoc in Hev. cbn [app] in Hev. split; [exact Hev|].
        rewrite Hlen. now rewrite length_flush_more.
Qed.

(** X9: the grouping loses, repeats and reorders nothing: the events of the
    groups, read in order, are the events of the rows that are not empty, in
    the order of the rows, each with its type, day, times and parity. *)
Theorem groups_keep_the_events (rows : list Node) (evs : list Event)
  (groups : list (list Event)) :
  Forall2 (fun r e => parseEvent spareCap r = Ok e) rows evs ->
  groupRows spareCap rows = Ok groups ->
  Forall2 sameSlot (List.concat groups) (filter nonEmpty evs).
Proof.
  unfold groupRows. intros Hparsed H.
  apply bind_Ok in H as ([res group] & Hloop & H). cbn [fst snd] in H.
  injection H as <-.
  destruct (forRows_events _ _ Hparsed _ _ _ _ [] Hloop) as [Hev _];
    [constructor|].
  rewrite concat_flush. exact Hev.
Qed.

(** X10: the grouping returns one group for every row that has a name. *)
Theorem groups_count_named_rows (rows : list Node) (evs : list Event)
  (groups : list (list Event)) :
  Forall2 (fun r e => parseEvent spareCap r = Ok e) rows evs ->
  groupRows spareCap rows = Ok groups ->
  List.length groups = List.length (filter named evs).
Proof.
  unfold groupRows. intros Hparsed H.
  apply bind_Ok in H as ([res group] & Hloop & H). cbn [fst snd] in H.
  injection H as <-.
  destruct (forRows_events _ _ Hparsed _ _ _ _ [] Hloop) as [_ Hlen];
    [constructor|].
  exact Hlen.
Qed.

(** X11: a table can be cut before any row that has a name: the groups of
    the whole are the groups of the part before followed by the groups of the
    part after, and a fault of either part is the fault of the whole. *)
Theorem groupRows_cut (rows1 : list Node) (r : Node) (rows2 : list Node)
  (e : Event) :
  parseEvent spareCap r = Ok e -> Name e <> "" ->
  groupRows spareCap (rows1 ++ r :: rows2) =
  (before <- groupRows spareCap rows1 ;;
   after <- groupRows spareCap (r :: rows2) ;;
   Ok (before ++ after)).
Proof.
  intros Hparse Hname. unfold groupRows. rewrite forRows_app.
  destruct (forRows spareCap rows1 [] []) as [[res1 group1]|p];
    [|reflexivity].
  cbn [bind fst snd forRows]. rewrite Hparse. cbn [bind].
  rewrite !addEvent_start by exact Hname. cbn [bind fst snd].
  rewrite flush_nil.
  rewrite <- (app_nil_r (flush res1 group1)) at 1.
  rewrite forRows_prefix.
  destruct (forRows spareCap rows2 [] [e]) as [[res2 group2]|p];
    [|reflexivity].
  cbn [bind fst snd]. now rewrite flush_app.
Qed.

(** X12: the grouping has no partial result, and two kinds of fault only: it
    faults with [p] exactly when, after rows that were processed without
    fault, a row comes whose parsing faults with [p], or a row that continues
    a group while no group is open ([p] then being the index fault of
    [group[0]]). *)
Theorem groupRows_fault (rows : list Node) (p : panic) :
  groupRows spareCap rows = Panic p <->
  exists before row after res group,
    rows = before ++ row :: after
    /\ forRows spareCap before [] [] = Ok (res, group)
    /\ (parseEvent spareCap row = Panic p
        \/ exists c, parseEvent spareCap row = Ok c /\ continues c
                     /\ group = [] /\ p = IndexOutOfRange 0 0).
Proof.
  assert (Hfind : forall rows res group,
             forRows spareCap rows res group = Panic p ->
             exists before row after res' group',
               rows = before ++ row :: after
               /\ forRows spareCap before res group = Ok (res', group')
               /\ (parseEvent spareCap row = Panic p
                   \/ exists c, parseEvent spareCap row = Ok c /\ continues c
                                /\ group' = [] /\ p = IndexOutOfRange 0 0)).
  { induction rows0 as [|r rows0 IH]; intros res group H.
    - discriminate H.
    - cbn [forRows] in H.
      destruct (parseEvent spareCap r) as [e|p0] eqn:Hparse.
      + cbn [bind] in H.
        destruct (addEvent res group e) as [[res1 group1]|p1] eqn:Hadd.
        * cbn [bind fst snd] in H.
          apply IH in H
            as (before & row & after & res' & group' & -> & Hloop & Hrow).
          exists (r :: before), row, after, res', group'.
          split; [reflexivity|]. split; [|exact Hrow].
          cbn [forRows]. rewrite Hparse. cbn [bind]. rewrite Hadd. exact Hloop.
        * cbn [bind] in H. injection H as ->.
          apply addEvent_Panic in Hadd as (-> & -> & Hcont).
          exists [], r, rows0, res, []. split; [reflexivity|].
          split; [reflexivity|]. right. exists e. auto.
      + cbn [bind] in H. injection H as ->.
        exists [], r, rows0, res, group. auto. }
  unfold groupRows. split.
  - intros H.
    destruct (forRows spareCap rows [] []) as [st|p0] eqn:Hloop;
      [discriminate H|].
    cbn [bind] in H. injection H as ->. now apply Hfind.
  - intros (before & row & after & res & group & -> & Hloop & Hrow).
    rewrite forRows_app, Hloop. cbn [bind fst snd forRows].
    destruct Hrow as [Hparse|(c & Hparse & Hcont & -> & ->)];
      rewrite Hparse; cbn [bind]; [reflexivity|].
    now rewrite addEvent_continues_nil.
Qed.

End GroupingProperties.

Example sample_parsed :
  Forall2 (fun r e => parseEvent Sample.spareCap r = Ok e)
    [Sample.lecture; Sample.decorative; Sample.lecture2; Sample.seminar]
    [Sample.lectureEvent; emptyEvent; Sample.lecture2Event;
     Sample.seminarEvent].
Proof.
  repeat (apply Forall2_cons; [vm_compute; reflexivity|]). apply Forall2_nil.
Qed.

Example sample_groups :
  groupRows Sample.spareCap
    [Sample.lecture; Sample.decorative; Sample.lecture2; Sample.seminar]
  = Ok [[Sample.lectureEvent;
         backfill Sample.lectureEvent Sample.lecture2Event];
        [Sample.seminarEvent]].
Proof. vm_compute. reflexivity. Qed.

Lemma groups_are_wellformed_witness :
  Forall wellGroup
    [[Sample.lectureEvent; backfill Sample.lectureEvent Sample.lecture2Event];
     [Sample.seminarEvent]]
  /\ Forall (fun m => Name m <> "" /\ Teacher m <> "" /\ m <> emptyEvent)
       (List.concat
          [[Sample.lectureEvent;
            backfill Sample.lectureEvent Sample.lecture2Event];
           [Sample.seminarEvent]]).
Proof.
  exact (groups_are_wellformed Sample.spareCap _ _ sample_groups).
Defined.

Lemma groups_keep_the_events_witness :
  Forall2 sameSlot
    (List.concat
       [[Sample.lectureEvent;
         backfill Sample.lectureEvent Sample.lecture2Event];
        [Sample.seminarEvent]])
    (filter nonEmpty
       [Sample.lectureEvent; emptyEvent; Sample.lecture2Event;
        Sample.seminarEvent]).
Proof.
  exact (groups_keep_the_events Sample.spareCap _ _ _ sample_parsed
           sample_groups).
Defined.

Lemma groups_count_named_rows_witness :
  List.length
    [[Sample.lectureEvent; backfill Sample.lectureEvent Sample.lecture2Event];
     [Sample.seminarEvent]]
  = List.length
      (filter named
         [Sample.lectureEvent; emptyEvent; Sample.lecture2Event;
          Sample.seminarEvent]).
Proof.
  exact (groups_count_named_rows Sample.spareCap _ _ _ sample_parsed
           sample_groups).
Defined.

Example seminar_parsed :
  parseEvent Sample.spareCap Sample.seminar = Ok Sample.seminarEvent.
Proof. vm_compute. reflexivity. Qed.

Lemma groupRows_cut_witness :
  groupRows Sample.spareCap
    ([Sample.lecture; Sample.lecture2] ++ Sample.seminar :: [Sample.short])
  = (before <- groupRows Sample.spareCap [Sample.lecture; Sample.lecture2] ;;
     after <- groupRows Sample.spareCap (Sample.seminar :: [Sample.short]) ;;
     Ok (before ++ after)).
Proof.
  apply (groupRows_cut Sample.spareCap _ _ _ Sample.seminarEvent).
  - exact seminar_parsed.
  - discriminate.
Defined.

Example lecture_loop :
  forRows Sample.spareCap [Sample.lecture] [] []
  = Ok ([], [Sample.lectureEvent]).
Proof. vm_compute. reflexivity. Qed.

Example short_fault :
  parseEvent Sample.spareCap Sample.short = Panic (IndexOutOfRange 3 3).
Proof. vm_compute. reflexivity. Qed.

Lemma groupRows_fault_witness :
  groupRows Sample.spareCap ([Sample.lecture] ++ Sample.short :: [Sample.seminar])
  = Panic (IndexOutOfRange 3 3).
Proof.
  apply (proj2 (groupRows_fault Sample.spareCap _ _)).
  exists [Sample.lecture], Sample.short, [Sample.seminar], [],
    [Sample.lectureEvent].
  split; [reflexivity|]. split; [exact lecture_loop|]. left. exact short_fault.
Defined.

(** * Further properties of the navigation and of the retrieval *)

Lemma find_app {A : Type} (f : A -> bool) (l1 l2 : list A) :
  find f (l1 ++ l2) =
  match find f l1 with
  | Some x => Some x
  | None => find f l2
  end.
Proof.
  induction l1 as [|a l1 IH]; cbn [app find]; [reflexivity|].
  destruct (f a); [reflexivity | exact IH].
Qed.

Lemma find_first {A : Type} (f : A -> bool) (l : list A) (x : A) :
  find f l = Some x ->
  exists before after,
    l = before ++ x :: after /\ f x = true
    /\ Forall (fun y => f y = false) before.
Proof.
  induction l as [|a l IH]; cbn [find]; [discriminate|].
  destruct (f a) eqn:Ea.
  - intros H. injection H as ->. exists [], l. auto.
  - intros H. apply IH in H as (before & after & -> & Hx & Hbefore).
    exists (a :: before), after. auto.
Qed.

(** [scrape.Find] returns the first matching node of the document, in
    document order. *)
Lemma FindIn_find (matcher : Matcher) (n : Node) :
  forall anc,
    FindIn matcher anc n
    = option_map snd
        (find (fun c => matcher (fst c) (snd c)) (contexts anc n)).
Proof.
  induction n as [t a d attrs cs IH] using Node_tree_ind. intros anc.
  cbn [FindIn contexts find fst snd].
  destruct (matcher anc (mkNode t a d attrs cs)); [reflexivity|].
  generalize (mkNode t a d attrs cs :: anc) as ancs. intros ancs.
  induction IH as [|child rest Hfirst _ IHrest]; [reflexivity|].
  cbn [flat_map]. rewrite find_app, Hfirst.
  destruct (find _ (contexts ancs child)) as [c|]; [reflexivity|].
  cbn [option_map]. exact IHrest.
Qed.

(** Every node that [scrape.FindAll] returns is a node of the document that
    matches. *)
Lemma FindAllIn_sound (matcher : Matcher) (n : Node) :
  forall anc found,
    In found (FindAllIn matcher anc n) ->
    exists a, In (a, found) (contexts anc n) /\ matcher a found = true.
Proof.
  induction n as [t a d attrs cs IH] using Node_tree_ind.
  intros anc found Hin. cbn [FindAllIn] in Hin.
  destruct (matcher anc (mkNode t a d attrs cs)) eqn:Ematch.
  - destruct Hin as [<-|[]]. exists anc. split; [|exact Ematch].
    cbn [contexts]. now left.
  - apply in_flat_map in Hin as (child & Hchild & Hin).
    rewrite Forall_forall in IH.
    destruct (IH child Hchild _ _ Hin) as (a' & Hctx & Hm).
    exists a'. split; [|exact Hm].
    now apply (contexts_child _ _ _ _ _ _ child).
Qed.

(** When [scrape.FindAll] returns nothing, no node matches. *)
Lemma FindAllIn_nil (matcher : Matcher) (n : Node) :
  forall anc,
    FindAllIn matcher anc n = [] ->
    forall a m, In (a, m) (contexts anc n) -> matcher a m = false.
Proof.
  induction n as [t a d attrs cs IH] using Node_tree_ind.
  intros anc Hnil a' m Hin. cbn [FindAllIn] in Hnil.
  destruct (matcher anc (mkNode t a d attrs cs)) eqn:Ematch;
    [discriminate Hnil|].
  cbn [contexts] in Hin. destruct Hin as [Heq|Hin].
  - injection Heq as <- <-. exact Ematch.
  - apply in_flat_map in Hin as (child & Hchild & Hin).
    rewrite Forall_forall in IH.
    apply (IH child Hchild (mkNode t a d attrs cs :: anc)); [|exact Hin].
    assert (Hsub : forall x, In x (FindAllIn matcher
                                       (mkNode t a d attrs cs :: anc) child) ->
                               False).
    { intros x Hx.
      assert (Hall : In x (flat_map (FindAllIn matcher
                                       (mkNode t a d attrs cs :: anc)) cs))
        by (apply in_flat_map; eauto).
      rewrite Hnil in Hall. destruct Hall. }
    destruct (FindAllIn matcher (mkNode t a d attrs cs :: anc) child)
      as [|x l]; [reflexivity|]. exfalso. apply (Hsub x). now left.
Qed.

Lemma linkMatcher_true (anc : list Node) (n : Node) :
  linkMatcher anc n = true <->
  DataAtom n = atom.A /\ Text n = scheduleLinkText.
Proof.
  unfold linkMatcher. split.
  - destruct (atom.eqb (DataAtom n) atom.A) eqn:Eatom; [|discriminate].
    intros Htext. split; [now apply atom_eqb_eq | now apply String.eqb_eq].
  - intros [-> ->]. cbn [atom.eqb]. apply String.eqb_refl.
Qed.

Lemma rowMatcher_true (anc : list Node) (n : Node) :
  rowMatcher anc n = true ->
  DataAtom n = atom.Tr /\ scrapeAttr n "class" <> "head1"
  /\ exists parent grandparent above,
       anc = parent :: grandparent :: above
       /\ scrapeAttr grandparent "id" = "table1".
Proof.
  unfold rowMatcher.
  destruct anc as [|parent [|grandparent above]]; try discriminate.
  destruct (atom.eqb (DataAtom n) atom.Tr) eqn:Eatom; [|discriminate].
  intros H. apply andb_true_iff in H as [Hid Hclass].
  split; [now apply atom_eqb_eq|]. split.
  - intros Heq. rewrite Heq in Hclass. discriminate Hclass.
  - exists parent, grandparent, above.
    split; [reflexivity | now apply String.eqb_eq].
Qed.

Lemma attrOf_missing (attrs : list Attribute) (key : string) :
  Forall (fun a => Key a <> key) attrs -> attrOf attrs key = "".
Proof.
  induction 1 as [|a attrs Ha _ IH]; cbn [attrOf]; [reflexivity|].
  destruct (String.eqb_spec (Key a) key); [contradiction | exact IH].
Qed.


(** X13: the rows that [parseCourseEvents] hands to the row parser are [tr]
    nodes of the document that are not of the header class and whose
    grandparent has the id [table1]; and the search returns no row exactly
    when no node of the document is such a row. *)
Theorem event_rows_match (root : Node) :
  (forall row, In row (FindAll root rowMatcher) ->
     DataAtom row = atom.Tr /\ scrapeAttr row "class" <> "head1"
     /\ exists parent grandparent above,
          In (parent :: grandparent :: above, row) (contexts [] root)
          /\ scrapeAttr grandparent "id" = "table1")
  /\ (FindAll root rowMatcher = [] <->
      forall anc n, In (anc, n) (contexts [] root) -> rowMatcher anc n = false).
Proof.
  split.
  - intros row Hin. apply FindAllIn_sound in Hin as (anc & Hctx & Hmatch).
    apply rowMatcher_true in Hmatch
      as (Hatom & Hclass & parent & grandparent & above & -> & Hid).
    split; [exact Hatom|]. split; [exact Hclass|]. eauto.
  - split; [apply FindAllIn_nil | apply FindAllIn_none].
Qed.

Lemma event_rows_match_witness :
  DataAtom Sample.lecture = atom.Tr
  /\ scrapeAttr Sample.lecture "class" <> "head1"
  /\ exists parent grandparent above,
       In (parent :: grandparent :: above, Sample.lecture)
         (contexts [] Sample.schedule)
       /\ scrapeAttr grandparent "id" = "table1".
Proof.
  apply (proj1 (event_rows_match Sample.schedule) Sample.lecture).
  vm_compute. now left.
Defined.

Section NavigationProperties.

Variable spareCap : nat -> nat.
Variable html_Parse : string -> error + Node.
Variable server : string -> error + string.
Variable URL : Type.
Variable url_Parse : string -> error + URL.
Variable url_Resolve : URL -> URL -> string.

Local Abbreviation retrieve :=
  (GetCourseEvents spareCap html_Parse server URL url_Parse url_Resolve).

(** X14: when some [a] element of the landing page has the text [Rozvrh],
    [getRelativeScheduleUrl] returns no error, and what it returns is the
    [href] of the first such element in document order. *)
Theorem schedule_link_is_first (body : ReadCloser) (root : Node) :
  html_Parse (content body) = inr root ->
  (exists anc n,
     In (anc, n) (contexts [] root)
     /\ DataAtom n = atom.A /\ Text n = scheduleLinkText) ->
  exists before anc link after,
    contexts [] root = before ++ (anc, link) :: after
    /\ Forall (fun c => ~ (DataAtom (snd c) = atom.A
                           /\ Text (snd c) = scheduleLinkText)) before
    /\ DataAtom link = atom.A /\ Text link = scheduleLinkText
    /\ getRelativeScheduleUrl html_Parse body
       = Ok (scrapeAttr link "href", None).
Proof.
  intros Hroot (anc0 & n0 & Hin & Hatom & Htext).
  unfold getRelativeScheduleUrl. rewrite Hroot. unfold Find.
  rewrite FindIn_find.
  destruct (find (fun c => linkMatcher (fst c) (snd c)) (contexts [] root))
    as [[anc link]|] eqn:Efind.
  - apply find_first in Efind as (before & after & Hsplit & Hlink & Hbefore).
    cbn [fst snd] in Hlink. apply linkMatcher_true in Hlink as [Ha Ht].
    exists before, anc, link, after. repeat split; try assumption.
    eapply Forall_impl; [|exact Hbefore].
    intros c Hc Hmatch. apply (linkMatcher_true (fst c)) in Hmatch. congruence.
  - exfalso. pose proof (find_none _ _ Efind (anc0, n0) Hin) as Hno.
    cbn [fst snd] in Hno.
    assert (Hyes : linkMatcher anc0 n0 = true)
      by (now apply linkMatcher_true).
    congruence.
Qed.

(** X15: when the retrieval returns an error it returns no group, and the
    error is the answer of the network to the landing URL, or the
    schedule-link error, or the answer of the network to a second request. *)
Theorem retrieval_error (courseCode : string) (w : World)
  (groups : list (list Event)) (err : error) :
  fst (retrieve courseCode w) = Ok (groups, Some err) ->
  groups = []
  /\ (server (Sprintf sisUrl courseCode) = inl err
      \/ err = errNoScheduleUrl
      \/ exists url,
           requests (snd (retrieve courseCode w))
           = requests w ++ [Sprintf sisUrl courseCode; url]
           /\ server url = inl err).
Proof.
  unfold GetCourseEvents, http_Get.
  destruct (server (Sprintf sisUrl courseCode)) as [err1|bytes] eqn:Eget.
  - cbn [fst]. intros H. injection H as <- <-. auto.
  - unfold getRelativeScheduleUrl. cbn [content].
    destruct (html_Parse bytes) as [perr|root]; [discriminate|].
    destruct (Find root linkMatcher) as [link|].
    + destruct (getAbsoluteUrl URL url_Parse url_Resolve sisUrl
                  (scrapeAttr link "href")) as [scheduleUrl|p];
        [|discriminate].
      cbn [requests openBodies].
      destruct (server scheduleUrl) as [err2|bytes2] eqn:Eget2.
      * cbn [fst snd requests]. intros H. injection H as <- <-.
        split; [reflexivity|]. right. right. exists scheduleUrl.
        split; [now rewrite <- app_assoc | exact Eget2].
      * destruct (parseCourseEvents spareCap html_Parse _); discriminate.
    + cbn [fst]. intros H. injection H as <- <-. auto.
Qed.

(** X16: a retrieval that returns groups without an error has made exactly
    two requests, both answered: the landing URL, and the URL resolved from
    the [href] of the schedule link; the groups are those of the second
    body. *)
Theorem retrieval_success (courseCode : string) (w : World)
  (groups : list (list Event)) :
  fst (retrieve courseCode w) = Ok (groups, None) ->
  exists bytes root link baseUrl relativeUrl bytes2,
    server (Sprintf sisUrl courseCode) = inr bytes
    /\ html_Parse bytes = inr root
    /\ Find root linkMatcher = Some link
    /\ url_Parse sisUrl = inr baseUrl
    /\ url_Parse (scrapeAttr link "href") = inr relativeUrl
    /\ server (url_Resolve baseUrl relativeUrl) = inr bytes2
    /\ requests (snd (retrieve courseCode w))
       = requests w
         ++ [Sprintf sisUrl courseCode; url_Resolve baseUrl relativeUrl]
    /\ parseCourseEvents spareCap html_Parse
         (mkBody (S (List.length (requests w))) bytes2)
       = Ok groups.
Proof.
  unfold GetCourseEvents, http_Get.
  destruct (server (Sprintf sisUrl courseCode)) as [err1|bytes] eqn:Eget;
    [discriminate|].
  unfold getRelativeScheduleUrl. cbn [content].
  destruct (html_Parse bytes) as [perr|root] eqn:Eroot; [discriminate|].
  destruct (Find root linkMatcher) as [link|] eqn:Elink; [|discriminate].
  unfold getAbsoluteUrl.
  destruct (url_Parse sisUrl) as [uerr|baseUrl] eqn:Ebase; [discriminate|].
  destruct (url_Parse (scrapeAttr link "href")) as [uerr|relativeUrl] eqn:Erel;
    [discriminate|].
  cbn [requests openBodies].
  destruct (server (url_Resolve baseUrl relativeUrl)) as [err2|bytes2] eqn:Eget2;
    [discriminate|].
  rewrite length_app. cbn [List.length].
  replace (List.length (requests w) + 1)%nat
    with (S (List.length (requests w))) by lia.
  destruct (parseCourseEvents spareCap html_Parse
              (mkBody (S (List.length (requests w))) bytes2))
    as [parsed|p] eqn:Eparse; [|discriminate].
  cbn [fst snd requests]. intros H. injection H as <-.
  exists bytes, root, link, baseUrl, relativeUrl, bytes2.
  repeat split; try assumption; try reflexivity. now rewrite <- app_assoc.
Qed.


(** X18: the retrieval does not check that the schedule link has an [href]:
    for a link without one it goes on with the empty reference, and its
    second request is for the URL that the empty reference resolves to. *)
Theorem link_without_href (courseCode : string) (w : World) (bytes : string)
  (root link : Node) (baseUrl emptyUrl : URL) :
  server (Sprintf sisUrl courseCode) = inr bytes ->
  html_Parse bytes = inr root ->
  Find root linkMatcher = Some link ->
  Forall (fun a => Key a <> "href") (Attr link) ->
  url_Parse sisUrl = inr baseUrl ->
  url_Parse "" = inr emptyUrl ->
  getRelativeScheduleUrl html_Parse (mkBody (List.length (requests w)) bytes)
  = Ok ("", None)
  /\ requests (snd (retrieve courseCode w))
     = requests w ++ [Sprintf sisUrl courseCode; url_Resolve baseUrl emptyUrl].
Proof.
  intros Hget Hroot Hlink Hattrs Hbase Hempty.
  assert (Hrel : getRelativeScheduleUrl html_Parse
                   (mkBody (List.length (requests w)) bytes) = Ok ("", None)).
  { unfold getRelativeScheduleUrl. cbn [content]. rewrite Hroot, Hlink.
    unfold scrapeAttr. now rewrite attrOf_missing. }
  split; [exact Hrel|].
  unfold GetCourseEvents, http_Get. rewrite Hget, Hrel.
  unfold getAbsoluteUrl. rewrite Hbase, Hempty. cbn [requests openBodies].
  destruct (server (url_Resolve baseUrl emptyUrl)) as [err2|bytes2].
  - cbn [snd requests]. now rewrite <- app_assoc.
  - destruct (parseCourseEvents spareCap html_Parse _);
      cbn [snd requests]; now rewrite <- app_assoc.
Qed.

End NavigationProperties.

Lemma schedule_link_is_first_witness :
  exists before anc link after,
    contexts [] Sample.landingTwoLinks = before ++ (anc, link) :: after
    /\ Forall (fun c => ~ (DataAtom (snd c) = atom.A
                           /\ Text (snd c) = scheduleLinkText)) before
    /\ DataAtom link = atom.A /\ Text link = scheduleLinkText
    /\ getRelativeScheduleUrl
         (Sample.html_Parse [("landing", Sample.landingTwoLinks)])
         (mkBody 0 "landing")
       = Ok (scrapeAttr link "href", None).
Proof.
  apply schedule_link_is_first.
  - vm_compute. reflexivity.
  - exists (fst (nth 5 (contexts [] Sample.landingTwoLinks)
                   ([], Sample.landingTwoLinks))),
      (Sample.link "/schedule?x=2" "Rozvrh").
    split; [vm_compute; do 5 right; left; reflexivity|].
    split; vm_compute; reflexivity.
Defined.

Lemma retrieval_error_witness :
  @nil (list Event) = []
  /\ (Sample.server (Sprintf sisUrl "NMAI057") = inl errNoScheduleUrl
      \/ errNoScheduleUrl = errNoScheduleUrl
      \/ exists url,
           requests (snd (Sample.run Sample.landingNoLink Sample.schedule
                            "NMAI057" (mkWorld [] [])))
           = requests (mkWorld [] []) ++ [Sprintf sisUrl "NMAI057"; url]
           /\ Sample.server url = inl errNoScheduleUrl).
Proof.
  apply (retrieval_error Sample.spareCap
           (Sample.html_Parse [("landing", Sample.landingNoLink);
                               ("schedule", Sample.schedule)])
           Sample.server string Sample.url_Parse Sample.url_Resolve
           "NMAI057" (mkWorld [] []) [] errNoScheduleUrl).
  vm_compute. reflexivity.
Defined.

Lemma retrieval_success_witness :
  exists bytes root link baseUrl relativeUrl bytes2,
    Sample.server (Sprintf sisUrl "NMAI057") = inr bytes
    /\ Sample.html_Parse [("landing", Sample.landing);
                          ("schedule", Sample.schedule)] bytes = inr root
    /\ Find root linkMatcher = Some link
    /\ Sample.url_Parse sisUrl = inr baseUrl
    /\ Sample.url_Parse (scrapeAttr link "href") = inr relativeUrl
    /\ Sample.server (Sample.url_Resolve baseUrl relativeUrl) = inr bytes2
    /\ requests (snd (Sample.run Sample.landing Sample.schedule "NMAI057"
                        (mkWorld [] [])))
       = requests (mkWorld [] [])
         ++ [Sprintf sisUrl "NMAI057"; Sample.url_Resolve baseUrl relativeUrl]
    /\ parseCourseEvents Sample.spareCap
         (Sample.html_Parse [("landing", Sample.landing);
                             ("schedule", Sample.schedule)])
         (mkBody (S (List.length (requests (mkWorld [] [])))) bytes2)
       = Ok [[Sample.lectureEvent;
              backfill Sample.lectureEvent Sample.lecture2Event];
             [Sample.seminarEvent]].
Proof.
  apply (retrieval_success Sample.spareCap
           (Sample.html_Parse [("landing", Sample.landing);
                               ("schedule", Sample.schedule)])
           Sample.server string Sample.url_Parse Sample.url_Resolve
           "NMAI057" (mkWorld [] [])).
  vm_compute. reflexivity.
Defined.

Lemma link_without_href_witness :
  getRelativeScheduleUrl
    (Sample.html_Parse [("landing", Sample.landingNoHref)])
    (mkBody (List.length (requests (mkWorld [] []))) "landing")
  = Ok ("", None)
  /\ requests
       (snd (GetCourseEvents Sample.spareCap
               (Sample.html_Parse [("landing", Sample.landingNoHref)])
               Sample.server string Sample.url_Parse Sample.url_Resolve
               "NMAI057" (mkWorld [] [])))
     = requests (mkWorld [] [])
       ++ [Sprintf sisUrl "NMAI057"; Sample.url_Resolve sisUrl ""].
Proof.
  apply (link_without_href Sample.spareCap
           (Sample.html_Parse [("landing", Sample.landingNoHref)])
           Sample.server string Sample.url_Parse Sample.url_Resolve
           "NMAI057" (mkWorld [] []) "landing" Sample.landingNoHref
           (Sample.elem atom.A "a" [] [Sample.text "Rozvrh"]) sisUrl "").
  - vm_compute. reflexivity.
  - vm_compute. reflexivity.
  - vm_compute. reflexivity.
  - constructor.
  - reflexivity.
  - reflexivity.
Defined.
